(** * cec: extended sequence containers

    A shallow embedding of the [cec] header library
    (cec/extended_sequence_container.hpp, its [detail] header and
    cec/string.hpp) together with the properties proved about it.

    The library has a compile-time half (the container rebinding of
    [cec::detail]) and a run-time half (the member functions of
    [extended_sequence_container]).  The compile-time half is embedded as
    functions over a small universe of C++ types, the run-time half as
    functions over [list], every operation that C++ leaves undefined
    returning [Undefined]. *)

From Stdlib Require Import String Ascii.
From Stdlib Require Import Bool Arith ZArith Lia List Permutation.
Import ListNotations.
Local Open Scope list_scope.

Set Implicit Arguments.
Set Warnings "-register-all".

(** ** C++ types *)

(** The types the rebinding machinery of [cec::detail] distinguishes: a
    class that is not a specialisation of a type-only template
    ([Named]), and a specialisation [Tmpl<Args...>] of a template all of
    whose parameters are types ([Inst]), the only shape the partial
    specialisations on [template <typename...> class Container] match. *)
Inductive type : Type :=
| Named (name : string)
| Inst (tmpl : string) (args : list type).

(** [std::is_same<A, B>::value]. *)
Fixpoint is_same (a b : type) {struct a} : bool :=
  match a, b with
  | Named x, Named y => String.eqb x y
  | Inst t xs, Inst u ys =>
      String.eqb t u &&
      (fix all_same (xs ys : list type) {struct xs} : bool :=
         match xs, ys with
         | [], [] => true
         | x :: xs', y :: ys' => is_same x y && all_same xs' ys'
         | _, _ => false
         end) xs ys
  | _, _ => false
  end.

(** What the classes of a program declare, as far as [cec::detail] looks
    at them. *)
Record declarations : Type := {
  (** the member alias template [other], when the class declares one *)
  other : type -> option (type -> type);
  (** the member typedef [allocator_type] *)
  allocator_type : type -> option type;
  (** the member typedef [value_type] *)
  value_type : type -> option type;
  (** an allocator's own member template [rebind<U>::other] *)
  rebind : type -> option (type -> type);
  (** whether the expression [T{}] is well-formed *)
  value_initializable : type -> bool
}.

(** ** Outcomes of a call *)

(** What a call does: it returns a value, it fails in a way the language
    defines (an exception leaves it), or its behaviour is undefined (an
    iterator is dereferenced or moved where the standard library gives
    no meaning to it). *)
Inductive outcome (A : Type) : Type :=
| Returns (a : A)
| Raises (what : string)
| Undefined.

Arguments Raises {A} what.
Arguments Undefined {A}.

Definition bind {A B : Type} (m : outcome A) (k : A -> outcome B) : outcome B :=
  match m with
  | Returns a => k a
  | Raises w => Raises w
  | Undefined => Undefined
  end.

Declare Scope outcome_scope.
Delimit Scope outcome_scope with outcome.
Notation "x <- m ;; k" := (bind m (fun x => k))
  (at level 61, m at next level, right associativity) : outcome_scope.
Open Scope outcome_scope.

(** A failure the language defines. *)
Definition defined_failure {A : Type} (o : outcome A) : Prop :=
  exists what, o = Raises what.

(** ** Iterators and the standard algorithms the library calls *)

Module std.

Section Iterators.

Context {A : Type}.

(** An iterator into a container is modelled by the range it still has
    to traverse: the elements from its position to the end of the
    container.  [begin] is the whole container, the past-the-end
    iterator is the empty range. *)
Definition iterator : Type := list A.

Definition begin (c : list A) : iterator := c.

Definition is_end (it : iterator) : bool :=
  match it with [] => true | _ :: _ => false end.

(** [*it]. *)
Definition deref (it : iterator) : outcome A :=
  match it with
  | x :: _ => Returns x
  | [] => Undefined
  end.

(** [std::advance(it, 1)], [++it]. *)
Definition advance (it : iterator) : outcome iterator :=
  match it with
  | _ :: it' => Returns it'
  | [] => Undefined
  end.

(** [std::next(it, n)] of an iterator at the beginning of its
    container, the only place the library calls it: a negative [n] steps
    before the first element, an [n] above the number of elements steps
    past the end. *)
Definition next (it : iterator) (n : Z) : outcome iterator :=
  if (0 <=? n)%Z && (n <=? Z.of_nat (length it))%Z
  then Returns (skipn (Z.to_nat n) it)
  else Undefined.

(** The range constructor [Container(first, last)]: [last] must be
    reachable from [first]. *)
Definition construct (first last : iterator) : outcome (list A) :=
  if length last <=? length first
  then Returns (firstn (length first - length last) first)
  else Undefined.

(** [c.erase(first, last)] for iterators [first], [last] into [c]. *)
Definition erase (c : list A) (first last : iterator) : outcome (list A) :=
  if (length last <=? length first) && (length first <=? length c)
  then Returns (firstn (length c - length first) c ++ last)
  else Undefined.

(** [c.insert(c.end(), first, last)] with the inserted range given by
    its elements. *)
Definition insert_end (c : list A) (range : list A) : list A := c ++ range.

(** [c.emplace(c.end(), x)]. *)
Definition emplace_end (c : list A) (x : A) : list A := c ++ [x].

(** [std::distance(first, last)] for [last] reachable from [first]. *)
Definition distance (first last : iterator) : nat :=
  length first - length last.

(** [std::find_if_not(first, end, p)]. *)
Fixpoint find_if_not (p : A -> bool) (first : iterator) : iterator :=
  match first with
  | [] => []
  | x :: first' => if p x then find_if_not p first' else first
  end.

(** [std::find_if(first, end, p)]. *)
Definition find_if (p : A -> bool) (first : iterator) : iterator :=
  find_if_not (fun x => negb (p x)) first.

(** [std::count_if(first, end, p)], a [difference_type]. *)
Definition count_if (p : A -> bool) (first : iterator) : Z :=
  fold_left (fun n x => if p x then (n + 1)%Z else n) first 0%Z.

(** [std::accumulate(first, end, init, f)]. *)
Definition accumulate {Init : Type} (first : iterator) (init : Init)
  (f : Init -> A -> Init) : Init :=
  fold_left f first init.

(** [a[i] = x] on the underlying storage. *)
Fixpoint store (a : list A) (i : nat) (x : A) : list A :=
  match a, i with
  | [], _ => []
  | _ :: a', O => x :: a'
  | y :: a', S i' => y :: store a' i' x
  end.

(** The loop of [std::remove_if]: [first] reads, [result] writes,
    [n] elements are left to read. *)
Fixpoint remove_if_loop (p : A -> bool) (n : nat) (a : list A)
  (result first : nat) : list A * nat :=
  match n with
  | O => (a, result)
  | S n' =>
      match nth_error a first with
      | Some x =>
          if p x then remove_if_loop p n' a result (S first)
          else remove_if_loop p n' (store a result x) (S result) (S first)
      | None => (a, result)
      end
  end.

(** [std::remove_if(c.begin(), c.end(), p)]: the storage after the
    algorithm and the iterator it returns.  The algorithm first looks
    for an element to remove and then shifts the elements to keep over
    the removed ones. *)
Definition remove_if (p : A -> bool) (c : list A) : list A * iterator :=
  let found := length c - length (find_if p c) in
  if is_end (find_if p c) then (c, [])
  else
    let '(a, result) := remove_if_loop p (length c - S found) c found (S found) in
    (a, skipn result a).

(** The loop of [std::transform(first, last, first, f)]. *)
Fixpoint transform_loop (f : A -> A) (n : nat) (a : list A) (i : nat) : list A :=
  match n with
  | O => a
  | S n' =>
      match nth_error a i with
      | Some x => transform_loop f n' (store a i (f x)) (S i)
      | None => a
      end
  end.

(** [std::transform(c.begin(), c.end(), c.begin(), f)]. *)
Definition transform (f : A -> A) (c : list A) : list A :=
  transform_loop f (length c) c 0.

(** [std::find(first, end, value)], with [eqb] the element type's
    [operator==]. *)
Definition find (eqb : A -> A -> bool) (value : A) (first : iterator) : iterator :=
  find_if (fun x => eqb x value) first.

(** [std::count(first, end, value)]. *)
Definition count (eqb : A -> A -> bool) (value : A) (first : iterator) : Z :=
  count_if (fun x => eqb x value) first.

(** An argument passed as [const value_type&] to an algorithm that
    writes to the container: a reference to an object outside the
    container, or to the element at a position of the container, whose
    value then is whatever the storage holds at that position. *)
Inductive reference : Type :=
| object (v : A)
| element (i : nat).

(** Whether the reference refers to something: an element of [c] for
    [element]. *)
Definition refers (value : reference) (c : list A) : bool :=
  match value with
  | object _ => true
  | element i => i <? length c
  end.

(** [x == value], with [eqb] the element type's [operator==] and
    [value] read through the reference from the storage [a]. *)
Definition equals_value (eqb : A -> A -> bool) (value : reference)
  (a : list A) (x : A) : bool :=
  match value with
  | object v => eqb x v
  | element i =>
      match nth_error a i with
      | Some v => eqb x v
      | None => false
      end
  end.

(** The loop of [std::remove]: the loop of [std::remove_if] with every
    comparison reading [value] through its reference.  An element that
    was moved from keeps its value, as an element of arithmetic type
    does. *)
Fixpoint remove_loop (eqb : A -> A -> bool) (value : reference) (n : nat)
  (a : list A) (result first : nat) : list A * nat :=
  match n with
  | O => (a, result)
  | S n' =>
      match nth_error a first with
      | Some x =>
          if equals_value eqb value a x
          then remove_loop eqb value n' a result (S first)
          else remove_loop eqb value n' (store a result x) (S result) (S first)
      | None => (a, result)
      end
  end.

(** [std::remove(c.begin(), c.end(), value)]: the search for the first
    element to remove writes nothing, the loop after it does. *)
Definition remove (eqb : A -> A -> bool) (value : reference) (c : list A)
  : list A * iterator :=
  let found := length c - length (find_if (equals_value eqb value c) c) in
  if is_end (find_if (equals_value eqb value c) c) then (c, [])
  else
    let '(a, result) :=
      remove_loop eqb value (length c - S found) c found (S found) in
    (a, skipn result a).

(** [*std::min_element(first, last)] over a range that starts with
    [first]: the first element no later one is smaller than. *)
Definition min_element (first : nat) (rest : list nat) : nat :=
  fold_left (fun smallest x => if x <? smallest then x else smallest) rest first.

End Iterators.

Section Sorting.

Context {A : Type}.

Variable comp : A -> A -> bool.

(** [std::is_sorted(first, last, comp)]: no element is followed by one
    that [comp] puts before it. *)
Fixpoint is_sorted (l : list A) : bool :=
  match l with
  | [] => true
  | x :: l' =>
      match l' with
      | [] => true
      | y :: _ => negb (comp y x) && is_sorted l'
      end
  end.

(** One step of straight insertion: [x] goes in front of the first
    element that [comp] puts after it. *)
Fixpoint linear_insert (x : A) (l : list A) : list A :=
  match l with
  | [] => [x]
  | y :: l' => if comp x y then x :: l else y :: linear_insert x l'
  end.

(** [std::sort(first, last, comp)].  The standard fixes the result of
    the range sort only up to the order of equivalent elements.
    Straight insertion gives one of the results it allows; what is
    shown of the range sort uses only that its result is a sorted
    arrangement of the elements it was given. *)
Definition sort (l : list A) : list A :=
  fold_left (fun sorted x => linear_insert x sorted) l [].

(** [l1.merge(l2, comp)] of [std::list]: an element of [l2] is taken
    only when [comp] puts it before the current element of [l1]. *)
Fixpoint merge (l1 l2 : list A) {struct l1} : list A :=
  let fix merge_into (l2 : list A) {struct l2} : list A :=
    match l1, l2 with
    | [], _ => l2
    | _, [] => l1
    | x :: l1', y :: l2' =>
        if comp y x then y :: merge_into l2' else x :: merge l1' l2
    end
  in merge_into l2.

(** The inner loop of [std::list::sort]: [carry] is merged into the
    counters [tmp] until an empty one takes it. *)
Fixpoint add_carry (carry : list A) (tmp : list (list A)) : list (list A) :=
  match tmp with
  | [] => [carry]
  | counter :: tmp' =>
      match counter with
      | [] => carry :: tmp'
      | _ :: _ => [] :: add_carry (merge counter carry) tmp'
      end
  end.

(** The outer loop: the elements leave the list one by one. *)
Fixpoint fill_counters (l : list A) (tmp : list (list A)) : list (list A) :=
  match l with
  | [] => tmp
  | x :: l' => fill_counters l' (add_carry [x] tmp)
  end.

(** The closing loop: every counter is merged with the ones below it. *)
Fixpoint merge_counters (below : list A) (tmp : list (list A)) : list A :=
  match tmp with
  | [] => below
  | counter :: tmp' => merge_counters (merge counter below) tmp'
  end.

(** [std::list::sort(comp)] and [std::forward_list::sort(comp)]: the
    merge sort on a binary counter of sorted runs. *)
Definition list_sort (l : list A) : list A :=
  merge_counters [] (fill_counters l []).

End Sorting.

Section Characters.

(** A [char] that holds an ASCII character. *)
Definition isascii (c : ascii) : bool := nat_of_ascii c <? 128.

(** [std::tolower(c)] and [std::toupper(c)] on a [char], in the default
    locale.  Outside of ASCII the library gives the call no meaning (a
    negative [char] is not an argument the functions accept). *)
Definition tolower (c : ascii) : outcome ascii :=
  let n := nat_of_ascii c in
  if isascii c
  then Returns (if (65 <=? n) && (n <=? 90) then ascii_of_nat (n + 32) else c)
  else Undefined.

Definition toupper (c : ascii) : outcome ascii :=
  let n := nat_of_ascii c in
  if isascii c
  then Returns (if (97 <=? n) && (n <=? 122) then ascii_of_nat (n - 32) else c)
  else Undefined.

End Characters.

End std.

Module detail.

Section Rebinding.

Variable D : declarations.

(** [std::allocator_traits<Alloc>::rebind_alloc<T>]: [Alloc::rebind<T>::other]
    when [Alloc] declares it, otherwise [Tmpl<T, Args...>] when [Alloc] is
    [Tmpl<U, Args...>], otherwise ill-formed. *)
Definition rebind_alloc (Alloc T : type) : option type :=
  match rebind D Alloc with
  | Some r => Some (r T)
  | None =>
      match Alloc with
      | Inst a (_ :: Args) => Some (Inst a (T :: Args))
      | _ => None
      end
  end.

(** [rebind_alloc_if_matches_helper<Matches, Allocator, Rebind>::type]: the
    primary template rebinds its second argument, the specialisation on
    [false] returns its second argument as it is. *)
Definition rebind_alloc_if_matches_helper
  (Matches : bool) (Allocator Rebind : type) : option type :=
  if Matches then rebind_alloc Allocator Rebind else Some Allocator.

(** [rebind_alloc_if_matches<Head, Allocator, Rebind>::type]: the struct
    derives from the helper at
    [<std::is_same<Head, Allocator>::value, Allocator, Rebind>]. *)
Definition rebind_alloc_if_matches (Head Allocator Rebind : type) : option type :=
  rebind_alloc_if_matches_helper (is_same Head Allocator) Allocator Rebind.

(** [rebind_sequence_container_helper<Container, Rebind,
    std::tuple<Unchecked...>, std::tuple<Checked...>>::type], with
    [Container] given as its template name [tmpl] (it is only
    re-instantiated in the base case) and its member [allocator_type].
    The loop moves the head of [Unchecked], passed through
    [rebind_alloc_if_matches], to the end of [Checked]; the base case
    drops the first checked type and puts [Rebind] in its place.  No
    specialisation matches an empty [Checked] in the base case. *)
Fixpoint rebind_sequence_container_helper
  (tmpl : string) (Allocator : option type) (Rebind : type)
  (Unchecked Checked : list type) {struct Unchecked} : option type :=
  match Unchecked with
  | [] =>
      match Checked with
      | _Old :: Checked' => Some (Inst tmpl (Rebind :: Checked'))
      | [] => None
      end
  | Head :: Unchecked' =>
      match Allocator with
      | None => None
      | Some A =>
          match rebind_alloc_if_matches Head A Rebind with
          | None => None
          | Some H' =>
              rebind_sequence_container_helper tmpl Allocator Rebind
                Unchecked' (Checked ++ [H'])
          end
      end
  end.

(** [has_other<Container, Rebind>(0)]: the [int] overload is viable when
    [typename Container::template other<Rebind>{}] is a valid expression,
    the [long] overload answers [false] otherwise. *)
Definition has_other (Container Rebind : type) : bool :=
  match other D Container with
  | Some o => value_initializable D (o Rebind)
  | None => false
  end.

(** [rebind_prefer_other<Container, Rebind, has_other, Args...>::other]. *)
Definition rebind_prefer_other
  (tmpl : string) (Rebind : type) (has_other : bool) (Args : list type)
  : option type :=
  if has_other then
    match other D (Inst tmpl Args) with
    | Some o => Some (o Rebind)
    | None => None
    end
  else
    rebind_sequence_container_helper tmpl
      (allocator_type D (Inst tmpl Args)) Rebind Args [].

(** [rebind_sequence_container<Container>::other<Rebind>]: the primary
    template for a class that is not a template specialisation, the
    partial specialisation for [Container<Args...>].  [None] is a
    program that does not compile. *)
Definition rebind_sequence_container (Container Rebind : type) : option type :=
  match Container with
  | Named _ =>
      match other D Container with
      | Some o => Some (o Rebind)
      | None => None
      end
  | Inst tmpl Args =>
      rebind_prefer_other tmpl Rebind (has_other Container Rebind) Args
  end.



End Rebinding.

(** *** Run-time helpers of [zip_n] *)

(** A pack [Containers...] of containers with element types [Ts...]. *)
Fixpoint containers (Ts : list Type) : Type :=
  match Ts with
  | [] => unit
  | T :: Ts' => (list T * containers Ts')%type
  end.

(** [std::tuple<Ts...>]. *)
Fixpoint tuple (Ts : list Type) : Type :=
  match Ts with
  | [] => unit
  | T :: Ts' => (T * tuple Ts')%type
  end.

(** The tuple of iterators [std::make_tuple(this->begin(),
    std::begin(containers)...)]: one iterator per container. *)
Definition iter_tuple (Ts : list Type) : Type := containers Ts.

(** [container_size(c)]: [c.size()] where the container has it,
    [std::distance(c.begin(), c.end())] otherwise. *)
Definition container_size {T : Type} (has_size : bool) (c : list T) : nat :=
  if has_size then length c
  else std.distance (std.begin c) [].

(** [get_iter_tuple_value(tuple)]: the tuple made of every iterator of
    [tuple] dereferenced, in index order. *)
Fixpoint get_iter_tuple_value (Ts : list Type) : iter_tuple Ts -> outcome (tuple Ts) :=
  match Ts with
  | [] => fun _ => Returns tt
  | T :: Ts' => fun its =>
      v <- std.deref (fst its) ;;
      vs <- get_iter_tuple_value Ts' (snd its) ;;
      Returns (v, vs)
  end.

(** [advance_iter_tuple(tuple)]: [std::advance(std::get<Indexes>(tuple), 1)]
    for every index. *)
Fixpoint advance_iter_tuple (Ts : list Type) : iter_tuple Ts -> outcome (iter_tuple Ts) :=
  match Ts with
  | [] => fun _ => Returns tt
  | T :: Ts' => fun its =>
      it <- std.advance (fst its) ;;
      its' <- advance_iter_tuple Ts' (snd its) ;;
      Returns (it, its')
  end.

(** [index_pack<Num, Nums...>::type]: the primary template derives
    from [index_pack<Num - 1, Num, Nums...>], the specialisation on [0]
    is its own [type]. *)
Fixpoint index_pack (Num : nat) (Nums : list nat) : list nat :=
  match Num with
  | O => 0 :: Nums
  | S Num' => index_pack Num' (Num :: Nums)
  end.

(** [make_index_pack<UpperBound>()], of type
    [index_pack<UpperBound - 1>::type].  At [0] the unsigned
    [UpperBound - 1] wraps around and no compiler follows the
    derivation to its end: [None]. *)
Definition make_index_pack (UpperBound : nat) : option (list nat) :=
  match UpperBound with
  | O => None
  | S Num => Some (index_pack Num [])
  end.

End detail.


(** The type aliases of [extended_sequence_container<SequenceContainer>].
    The wrapper [extended_sequence_container<...>] around the rebound
    container is left implicit. *)
Section Aliases.

Variable D : declarations.




End Aliases.


(** ** The wrapped container class *)

Inductive iterator_category : Type :=
| input_iterator_tag
| forward_iterator_tag
| bidirectional_iterator_tag
| random_access_iterator_tag.

(** What [extended_sequence_container] asks of the class it wraps when
    it sorts: the category of its iterators and, when the class has one,
    its member [sort(comp)]. *)
Record SequenceContainer (A : Type) : Type := {
  category : iterator_category;
  member_sort : option ((A -> A -> bool) -> list A -> list A)
}.

Definition std_vector (A : Type) : SequenceContainer A :=
  {| category := random_access_iterator_tag; member_sort := None |}.

Definition std_deque (A : Type) : SequenceContainer A :=
  {| category := random_access_iterator_tag; member_sort := None |}.

Definition std_list (A : Type) : SequenceContainer A :=
  {| category := bidirectional_iterator_tag;
     member_sort := Some (@std.list_sort A) |}.

Definition std_forward_list (A : Type) : SequenceContainer A :=
  {| category := forward_iterator_tag;
     member_sort := Some (@std.list_sort A) |}.

(** [detail::is_random_access<Container>]. *)
Definition is_random_access {A : Type} (C : SequenceContainer A) : bool :=
  match category C with
  | random_access_iterator_tag => true
  | _ => false
  end.

(** ** The member functions of [extended_sequence_container] *)

(** The receiver [*this] and every container argument are given by
    their elements.  An overload on an rvalue receiver ([&&]) carries
    the suffix [_rvalue].  A container argument is a container of its
    own, not the receiver itself; the [value] of [erase_all], which the
    algorithm compares with while it writes, is a [std.reference] and
    may be an element of the receiver. *)
Module cec.

Section Members.

Context {A : Type}.

(** [extend(container)]. *)
Definition extend (this container : list A) : list A :=
  std.insert_end this container.

(** [concat(container) const &]: a copy of the receiver is extended. *)
Definition concat (this container : list A) : list A :=
  let copy := this in extend copy container.

(** [concat(container) &&]. *)
Definition concat_rvalue (this container : list A) : list A :=
  extend this container.

(** [count_if(p)]. *)
Definition count_if (p : A -> bool) (this : list A) : Z :=
  std.count_if p (std.begin this).

(** [erase_all(value)], with [eqb] the element type's [operator==]:
    the reference [value] goes to [std::remove] as it is. *)
Definition erase_all (eqb : A -> A -> bool) (value : std.reference)
  (this : list A) : outcome (list A) :=
  if std.refers value this then
    let '(a, new_end) := std.remove eqb value this in
    std.erase a new_end []
  else Undefined.

(** [erase_if(p)]. *)
Definition erase_if (p : A -> bool) (this : list A) : outcome (list A) :=
  let '(a, new_end) := std.remove_if p this in
  std.erase a new_end [].

(** [filter(p) const &]. *)
Definition filter (p : A -> bool) (this : list A) : list A :=
  fold_left
    (fun temp item => if p item then std.emplace_end temp item else temp)
    this [].

(** [filter(p) &&]. *)
Definition filter_rvalue (p : A -> bool) (this : list A) : outcome (list A) :=
  erase_if (fun v => negb (p v)) this.

(** [map(f) const &]. *)
Definition map {B : Type} (f : A -> B) (this : list A) : list B :=
  fold_left (fun mapped item => std.emplace_end mapped (f item)) this [].

(** [transform(f)]. *)
Definition transform (f : A -> A) (this : list A) : list A :=
  std.transform f this.

(** [map(f) &&], enabled when [f] returns a [value_type]. *)
Definition map_rvalue (f : A -> A) (this : list A) : list A :=
  transform f this.

(** [reduce(f, init) const &]. *)
Definition reduce_init {Init : Type} (f : Init -> A -> Init) (init : Init)
  (this : list A) : Init :=
  std.accumulate (std.begin this) init f.

(** [reduce(f)]:
    [std::accumulate(std::next(this->begin()), this->end(), *this->begin(), f)]. *)
Definition reduce (f : A -> A -> A) (this : list A) : outcome A :=
  first <- std.next (std.begin this) 1 ;;
  init <- std.deref (std.begin this) ;;
  Returns (std.accumulate first init f).

(** [sort_helper(comp, tag)]: [std::sort] on [std::true_type], the
    member [sort] of the wrapped class on [std::false_type]; [None] when
    the wrapped class has no such member. *)
Definition sort_helper (C : SequenceContainer A) (comp : A -> A -> bool)
  (tag : bool) (this : list A) : option (list A) :=
  if tag then Some (std.sort comp this)
  else
    match member_sort C with
    | Some sort => Some (sort comp this)
    | None => None
    end.

(** [sort(comp)]. *)
Definition sort (C : SequenceContainer A) (comp : A -> A -> bool)
  (this : list A) : option (list A) :=
  sort_helper C comp (is_random_access C) this.

(** [take(num) const &]. *)
Definition take (num : Z) (this : list A) : outcome (list A) :=
  last <- std.next (std.begin this) num ;;
  std.construct (std.begin this) last.

(** [take(num) &&]. *)
Definition take_rvalue (num : Z) (this : list A) : outcome (list A) :=
  first <- std.next (std.begin this) num ;;
  std.erase this first [].

(** [take_while(p) const &]. *)
Definition take_while (p : A -> bool) (this : list A) : outcome (list A) :=
  let end_ := std.find_if_not p (std.begin this) in
  std.construct (std.begin this) end_.

(** [take_while(p) &&]. *)
Definition take_while_rvalue (p : A -> bool) (this : list A) : outcome (list A) :=
  let last := std.find_if_not p (std.begin this) in
  std.erase this last [].

(** The loop of [zip]: it runs while neither iterator is at its end,
    emplaces the pair of the two dereferenced iterators and advances
    both.  The iterators the loop ends with are returned with the
    result. *)
Fixpoint zip_loop {B : Type} (first_iter : std.iterator (A := A))
  (second_iter : std.iterator (A := B)) (zipped : list (A * B))
  {struct first_iter}
  : outcome (list (A * B) * (std.iterator (A := A) * std.iterator (A := B))) :=
  if std.is_end first_iter || std.is_end second_iter
  then Returns (zipped, (first_iter, second_iter))
  else
    a <- std.deref first_iter ;;
    b <- std.deref second_iter ;;
    match first_iter with
    | [] => Undefined
    | _ :: first_iter' =>
        second_iter' <- std.advance second_iter ;;
        zip_loop first_iter' second_iter' (std.emplace_end zipped (a, b))
    end.

(** [zip(other)]. *)
Definition zip {B : Type} (this : list A) (other : list B) : outcome (list (A * B)) :=
  r <- zip_loop (std.begin this) (std.begin other) [] ;;
  Returns (fst r).

(** [contains(value)], with [eqb] the element type's [operator==]. *)
Definition contains (eqb : A -> A -> bool) (value : A) (this : list A) : bool :=
  negb (std.is_end (std.find eqb value (std.begin this))).

(** [count(value)]. *)
Definition count (eqb : A -> A -> bool) (value : A) (this : list A) : Z :=
  std.count eqb value (std.begin this).

(** [reduce(f, init) &&]: the elements are handed to [f] as rvalues. *)
Definition reduce_init_rvalue {Init : Type} (f : Init -> A -> Init) (init : Init)
  (this : list A) : Init :=
  std.accumulate (std.begin this) init f.

End Members.

Section Nested.

Context {A B : Type}.

(** [flatten() const &]: every inner container is inserted at the end
    of the result. *)
Definition flatten (this : list (list A)) : list A :=
  fold_left (fun flattened innerContainer => std.insert_end flattened innerContainer)
    this [].

(** [flatten() &&]: the elements are moved out of the inner
    containers. *)
Definition flatten_rvalue (this : list (list A)) : list A :=
  fold_left (fun flattened innerContainer => std.insert_end flattened innerContainer)
    this [].

(** [unzip()]. *)
Definition unzip (this : list (A * B)) : list A * list B :=
  fold_left
    (fun unzipped item =>
       (std.emplace_end (fst unzipped) (fst item),
        std.emplace_end (snd unzipped) (snd item)))
    this ([], []).

End Nested.

Section ZipN.

(** The array [sizes] of [zip_n]; [has_size] tells, container by
    container, whether the class has a member [size()]. *)
Fixpoint sizes (Ts : list Type) (has_size : list bool)
  : detail.containers Ts -> list nat :=
  match Ts with
  | [] => fun _ => []
  | T :: Ts' => fun cs =>
      detail.container_size (hd true has_size) (fst cs)
      :: sizes Ts' (tl has_size) (snd cs)
  end.

(** The loop of [zip_n]: [n] rounds of emplacing the tuple of the
    dereferenced iterators and advancing them all. *)
Fixpoint zip_n_loop (Ts : list Type) (n : nat) (iter_tuple : detail.iter_tuple Ts)
  (zipped : list (detail.tuple Ts))
  : outcome (list (detail.tuple Ts) * detail.iter_tuple Ts) :=
  match n with
  | O => Returns (zipped, iter_tuple)
  | S n' =>
      v <- detail.get_iter_tuple_value Ts iter_tuple ;;
      iter_tuple' <- detail.advance_iter_tuple Ts iter_tuple ;;
      zip_n_loop Ts n' iter_tuple' (std.emplace_end zipped v)
  end.

End ZipN.

(** [zip_n(containers...)]: the receiver is the first container of the
    pack [A :: Ts]. *)
Definition zip_n_run {A : Type} {Ts : list Type} (has_size : list bool)
  (this : list A) (containers : detail.containers Ts)
  : outcome (list (detail.tuple (A :: Ts)) * detail.iter_tuple (A :: Ts)) :=
  let all : detail.containers (A :: Ts) := (this, containers) in
  let smallest :=
    match sizes (A :: Ts) has_size all with
    | [] => 0
    | s :: ss => std.min_element s ss
    end in
  zip_n_loop (A :: Ts) smallest all [].

Definition zip_n {A : Type} {Ts : list Type} (has_size : list bool)
  (this : list A) (containers : detail.containers Ts)
  : outcome (list (detail.tuple (A :: Ts))) :=
  r <- zip_n_run has_size this containers ;;
  Returns (fst r).

End cec.

(** ** Strings *)

(** [std::regex] and [std::sregex_iterator], as far as [split] uses
    them.  A regular expression is given by what the matcher does with
    it at one position of the subject: from the text before the position
    (nearest character first) and the text from the position on, the
    lengths of the matches that start there, in the order backtracking
    tries them. *)
Module regex.

Definition regex : Type := list ascii -> list ascii -> list nat.

(** The first candidate at a position, skipping the empty match under
    [match_not_null]. *)
Definition match_here (re : regex) (not_null : bool)
  (before rest : list ascii) : option nat :=
  find (fun len => negb (not_null && (len =? 0)))
       (List.filter (fun len => len <=? length rest) (re before rest)).

(** [std::regex_search] from a position: the leftmost position with a
    match, as the number of characters skipped and the length of the
    match.  Under [match_continuous] only the position itself is tried. *)
Fixpoint regex_search (re : regex) (not_null continuous : bool)
  (before rest : list ascii) {struct rest} : option (nat * nat) :=
  match match_here re not_null before rest with
  | Some len => Some (0, len)
  | None =>
      if continuous then None
      else
        match rest with
        | [] => None
        | c :: rest' =>
            match regex_search re not_null continuous (c :: before) rest' with
            | Some (skipped, len) => Some (S skipped, len)
            | None => None
            end
        end
  end.

(** The text before and from the end of a match found at [skipped]
    characters from the position, of length [len]. *)
Definition after_match (before rest : list ascii) (skipped len : nat)
  : list ascii * list ascii :=
  (rev (firstn (skipped + len) rest) ++ before, skipn (skipped + len) rest).

(** [iter->str()] of that match. *)
Definition str (rest : list ascii) (skipped len : nat) : list ascii :=
  firstn len (skipn skipped rest).

(** The matches [std::sregex_iterator] goes through after one that
    ended with [before] behind it and [rest] ahead, [prev_empty] telling
    whether that match was empty: [operator++] retries an empty match's
    position for a non-empty match, then searches on from the next
    character. *)
Fixpoint matches_after (fuel : nat) (re : regex) (prev_empty : bool)
  (before rest : list ascii) : list (list ascii) :=
  match fuel with
  | O => []
  | S fuel' =>
      let continue_from (before rest : list ascii) :=
        match regex_search re false false before rest with
        | Some (skipped, len) =>
            let '(before', rest') := after_match before rest skipped len in
            str rest skipped len :: matches_after fuel' re (len =? 0) before' rest'
        | None => []
        end in
      if prev_empty then
        match rest with
        | [] => []
        | c :: rest' =>
            match regex_search re true true before rest with
            | Some (skipped, len) =>
                let '(before', rest') := after_match before rest skipped len in
                str rest skipped len :: matches_after fuel' re false before' rest'
            | None => continue_from (c :: before) rest'
            end
        end
      else continue_from before rest
  end.

(** Every [iter->str()] of
    [for (iter = std::sregex_iterator(begin, end, re);
          iter != std::sregex_iterator{}; ++iter)]. *)
Definition all_matches (re : regex) (subject : list ascii) : list (list ascii) :=
  match regex_search re false false [] subject with
  | Some (skipped, len) =>
      let '(before, rest) := after_match [] subject skipped len in
      str subject skipped len
      :: matches_after (2 * length subject + 2) re (len =? 0) before rest
  | None => []
  end.

(** [\s] of the default locale. *)
Definition isspace (c : ascii) : bool :=
  let n := nat_of_ascii c in (n =? 32) || ((9 <=? n) && (n <=? 13)).

(** The number of leading characters that are not white space. *)
Fixpoint non_space_run (rest : list ascii) : nat :=
  match rest with
  | [] => 0
  | c :: rest' => if isspace c then 0 else S (non_space_run rest')
  end.

(** [std::regex("\\S+")]: the greedy run of characters that are not
    white space, then every shorter non-empty run. *)
Definition S_plus : regex :=
  fun _ rest => rev (seq 1 (non_space_run rest)).

(** The regular expression that matches the one character [c]. *)
Definition literal (c : ascii) : regex :=
  fun _ rest =>
    match rest with
    | c' :: _ => if Ascii.eqb c c' then [1] else []
    | [] => []
    end.

End regex.

Module extendable_basic_string.

(** [split(delimiter)]: every match of [delimiter] in the string is
    emplaced at the end of the container. *)
Definition split (delimiter : regex.regex) (this : list ascii) : list (list ascii) :=
  fold_left (fun container m => std.emplace_end container m)
            (regex.all_matches delimiter this) [].

(** [split()] with the default argument [std::regex("\\S+")]. *)
Definition split_default (this : list ascii) : list (list ascii) :=
  split regex.S_plus this.

(** The loop of [join]: [*iter] and the delimiter are appended while
    another string follows, the last string is appended alone. *)
Fixpoint join_loop (this : list ascii) (iter : list (list ascii))
  (joined : list ascii) : list ascii :=
  match iter with
  | [] => joined
  | s :: next =>
      match next with
      | [] => joined ++ s
      | _ :: _ => join_loop this next (joined ++ (s ++ this))
      end
  end.

(** [join(strings)]: the receiver is the delimiter. *)
Definition join (this : list ascii) (strings : list (list ascii)) : list ascii :=
  match strings with
  | [] => []
  | _ :: _ => join_loop this strings []
  end.

(** The loops of [to_lower] and [to_upper] over the copy of the
    string. *)
Fixpoint convert (f : ascii -> outcome ascii) (letters : list ascii)
  : outcome (list ascii) :=
  match letters with
  | [] => Returns []
  | letter :: rest =>
      letter' <- f letter ;;
      rest' <- convert f rest ;;
      Returns (letter' :: rest')
  end.

(** [to_lower()]. *)
Definition to_lower (this : list ascii) : outcome (list ascii) :=
  convert std.tolower this.

(** [to_upper()]. *)
Definition to_upper (this : list ascii) : outcome (list ascii) :=
  convert std.toupper this.

End extendable_basic_string.

(** ** The classes of the library and of its tests *)

Module program.

Definition int : type := Named "int".
Definition double : type := Named "double".
Definition char : type := Named "char".

Definition allocator (T : type) : type := Inst "std::allocator" [T].
Definition char_traits (T : type) : type := Inst "std::char_traits" [T].
Definition vector (T : type) : type := Inst "std::vector" [T; allocator T].
Definition list (T : type) : type := Inst "std::list" [T; allocator T].

(** [cec::extendable_basic_string<CharT, Traits, Allocator>]. *)
Definition extendable_basic_string (CharT Traits Allocator : type) : type :=
  Inst "cec::extendable_basic_string" [CharT; Traits; Allocator].

(** [rebind_setup::MyList], a class derived from [std::list<int>]. *)
Definition MyList : type := Named "rebind_setup::MyList".


Definition is_template (name : string) (C : type) : bool :=
  match C with
  | Inst tmpl _ => String.eqb tmpl name
  | Named _ => false
  end.

Definition first_argument (C : type) : option type :=
  match C with
  | Inst _ (T :: _) => Some T
  | _ => None
  end.

Definition last_argument (C : type) : option type :=
  match C with
  | Inst _ Args => List.last (List.map Some Args) None
  | Named _ => None
  end.

(** The declarations of the standard containers and allocator, of
    [cec::extendable_basic_string] and of the two classes of the
    rebinding test.  [MyList] maps to [std::list], [MyTemplateList] to
    [std::vector]; the string class declares no [other]. *)
Definition classes : declarations := {|
  other := fun C =>
    if is_same C MyList then Some list
    else if is_template "rebind_setup::MyTemplateList" C then Some vector
    else None;
  allocator_type := fun C =>
    if is_same C MyList then Some (allocator int)
    else if is_template "rebind_setup::MyTemplateList" C
    then option_map allocator (first_argument C)
    else if is_template "std::vector" C || is_template "std::list" C
            || is_template "std::deque" C || is_template "std::forward_list" C
            || is_template "cec::extendable_basic_string" C
    then last_argument C
    else None;
  value_type := fun C =>
    if is_same C MyList then Some int else first_argument C;
  rebind := fun Alloc =>
    if is_template "std::allocator" Alloc then Some allocator else None;
  value_initializable := fun _ => true
|}.

End program.

(** ** Classes of a program that uses the library *)

(** Classes a program can hand to the library: an allocator [Arena<T>]
    that is built from a memory region and has no default constructor;
    a class template [ArenaList<T, Alloc>], derived from
    [std::list<T, Alloc>], whose declared mapping [other<Rebind>] is
    [std::list<Rebind, Arena<Rebind>>]; and an element class
    [NoDefault] without a default constructor. *)
Module client.

Definition Arena (T : type) : type := Inst "client::Arena" [T].


Definition arena_list (T : type) : type := Inst "std::list" [T; Arena T].


(** Whether [C{}] is well-formed: not for [NoDefault] and [Arena<T>];
    for a pair or a tuple when it is for every component; for any other
    specialisation, a container or an allocator, when it is for every
    parameter after the first, the default constructor of a container
    building its allocator and nothing else. *)
Fixpoint default_constructible (C : type) : bool :=
  match C with
  | Named name => negb (String.eqb name "client::NoDefault")
  | Inst tmpl Args =>
      if String.eqb tmpl "client::Arena" then false
      else if String.eqb tmpl "std::pair" || String.eqb tmpl "std::tuple"
      then forallb default_constructible Args
      else
        match Args with
        | [] => true
        | _ :: Params => forallb default_constructible Params
        end
  end.

(** The declarations of [program.classes] with those of [ArenaList]. *)
Definition classes : declarations := {|
  other := fun C =>
    if program.is_template "client::ArenaList" C then Some arena_list
    else other program.classes C;
  allocator_type := fun C =>
    if program.is_template "client::ArenaList" C then program.last_argument C
    else allocator_type program.classes C;
  value_type := value_type program.classes;
  rebind := rebind program.classes;
  value_initializable := default_constructible
|}.

End client.

(** * The vocabulary of the properties *)

(** ** Rebinding *)

(** The base case of [rebind_sequence_container_helper]. *)
Definition rebound_base (tmpl : string) (Rebind : type) (Checked : list type)
  : option type :=
  match Checked with
  | _ :: Checked' => Some (Inst tmpl (Rebind :: Checked'))
  | [] => None
  end.

(** What the loop of [rebind_sequence_container_helper] makes of one
    unchecked parameter once the allocator is known to rebind to [A']. *)
Definition checked_as (A A' Head : type) : type :=
  if is_same Head A then A' else A.

(** The class [Tmpl<T, std::allocator<T>>]. *)
Definition with_allocator (tmpl : string) (T : type) : type :=
  Inst tmpl [T; program.allocator T].

(** ** Kept elements *)

(** The longest prefix of [l] whose elements all satisfy [p]. *)
Fixpoint longest_prefix {A : Type} (p : A -> bool) (l : list A) : list A :=
  match l with
  | [] => []
  | x :: l' => if p x then x :: longest_prefix p l' else []
  end.



(** Whether [num] elements can be taken from [this]. *)
Definition in_range {A : Type} (num : Z) (this : list A) : bool :=
  (0 <=? num)%Z && (num <=? Z.of_nat (length this))%Z.

(** ** Words *)

(** A string of one or more characters none of which is white space,
    and a string of one or more characters all of which are. *)
Definition is_word (w : list ascii) : bool :=
  match w with
  | [] => false
  | _ :: _ => forallb (fun c => negb (regex.isspace c)) w
  end.

Definition is_white_space (s : list ascii) : bool :=
  match s with
  | [] => false
  | _ :: _ => forallb regex.isspace s
  end.

(** The capital and the small letters of ASCII. *)
Definition isupper (c : ascii) : bool :=
  (65 <=? nat_of_ascii c) && (nat_of_ascii c <=? 90).

Definition islower (c : ascii) : bool :=
  (97 <=? nat_of_ascii c) && (nat_of_ascii c <=? 122).

(** ** Packs of containers *)

(** The pack seen from the result: the length of the shortest
    container, the tuple of the [i]-th elements, and the iterators [n]
    steps from the beginnings. *)
Fixpoint shortest (Ts : list Type) : detail.containers Ts -> nat -> nat :=
  match Ts with
  | [] => fun _ m => m
  | T :: Ts' => fun cs m => shortest Ts' (snd cs) (Nat.min m (length (fst cs)))
  end.

Fixpoint nth_tuple (Ts : list Type) : detail.containers Ts -> nat -> option (detail.tuple Ts) :=
  match Ts with
  | [] => fun _ _ => Some tt
  | T :: Ts' => fun cs i =>
      match nth_error (fst cs) i, nth_tuple Ts' (snd cs) i with
      | Some v, Some vs => Some (v, vs)
      | _, _ => None
      end
  end.

Fixpoint skip_all (Ts : list Type) (n : nat) : detail.containers Ts -> detail.containers Ts :=
  match Ts with
  | [] => fun cs => cs
  | T :: Ts' => fun cs => (skipn n (fst cs), skip_all Ts' n (snd cs))
  end.

(** Every container of the pack has at least [n] elements. *)
Fixpoint all_at_least (Ts : list Type) (n : nat) : detail.containers Ts -> Prop :=
  match Ts with
  | [] => fun _ => True
  | T :: Ts' => fun cs => n <= length (fst cs) /\ all_at_least Ts' n (snd cs)
  end.




(** ** Orderings *)

(** The requirement of the standard on a comparator: a strict weak
    ordering. *)
Record strict_weak_order {A : Type} (comp : A -> A -> bool) : Prop := {
  irreflexive : forall x, comp x x = false;
  transitive : forall x y z, comp x y = true -> comp y z = true -> comp x z = true;
  equivalence_transitive : forall x y z,
    comp x y = false -> comp y x = false ->
    comp y z = false -> comp z y = false ->
    comp x z = false /\ comp z x = false
}.

(** No element of [l] is followed, at any distance, by one that [comp]
    puts before it. *)
Definition non_decreasing {A : Type} (comp : A -> A -> bool) (l : list A) : Prop :=
  forall i j x y,
    i < j -> nth_error l i = Some x -> nth_error l j = Some y -> comp y x = false.

(** No element of [l] has, anywhere after it, one that [comp] puts
    before it. *)
Fixpoint ordered {A : Type} (comp : A -> A -> bool) (l : list A) : Prop :=
  match l with
  | [] => True
  | x :: l' => Forall (fun y => comp y x = false) l' /\ ordered comp l'
  end.

(** * Properties *)

(** ** Type equality *)

Fixpoint is_same_sound (a b : type) {struct a} : is_same a b = true -> a = b.
Proof.
  destruct a as [x | t xs], b as [y | u ys]; simpl; try discriminate.
  - intros H. apply String.eqb_eq in H. now subst.
  - intros H. apply andb_true_iff in H as [Ht Hargs].
    apply String.eqb_eq in Ht. subst u. f_equal.
    revert ys Hargs.
    induction xs as [| x xs IH]; intros [| y ys]; try discriminate; auto.
    intros H. apply andb_true_iff in H as [Hx Hrest].
    f_equal; [apply is_same_sound; exact Hx | apply IH; exact Hrest].
Qed.

Fixpoint is_same_refl (a : type) : is_same a a = true.
Proof.
  destruct a as [x | t xs]; simpl.
  - apply String.eqb_refl.
  - rewrite String.eqb_refl. simpl.
    induction xs as [| x xs IH]; auto.
    rewrite is_same_refl. exact IH.
Qed.

Lemma is_same_eq (a b : type) : is_same a b = true <-> a = b.
Proof.
  split; [apply is_same_sound | intros ->; apply is_same_refl].
Qed.

(** ** Rebinding *)

Section RebindingFacts.

Variable D : declarations.

Lemma helper_loop (tmpl : string) (A A' Rebind : type) :
  detail.rebind_alloc D A Rebind = Some A' ->
  forall Unchecked Checked,
    detail.rebind_sequence_container_helper D tmpl (Some A) Rebind Unchecked Checked
    = rebound_base tmpl Rebind (Checked ++ List.map (checked_as A A') Unchecked).
Proof.
  intros HA. induction Unchecked as [| Head Unchecked IH]; intros Checked; simpl.
  - now rewrite app_nil_r.
  - unfold detail.rebind_alloc_if_matches, detail.rebind_alloc_if_matches_helper.
    unfold checked_as at 1.
    destruct (is_same Head A).
    + rewrite HA, IH, <- app_assoc. reflexivity.
    + rewrite IH, <- app_assoc. reflexivity.
Qed.

(** The structural tier on a class that declares an allocator which
    rebinds to [A']: the first parameter becomes [Rebind], a later
    parameter equal to the allocator becomes [A'], and every other later
    parameter becomes the allocator [A] itself. *)
Lemma structural_rebind (tmpl : string) (Old : type) (Args : list type)
  (A A' Rebind : type) :
  detail.has_other D (Inst tmpl (Old :: Args)) Rebind = false ->
  allocator_type D (Inst tmpl (Old :: Args)) = Some A ->
  detail.rebind_alloc D A Rebind = Some A' ->
  detail.rebind_sequence_container D (Inst tmpl (Old :: Args)) Rebind
  = Some (Inst tmpl (Rebind :: List.map (checked_as A A') Args)).
Proof.
  intros Hno HA HA'. unfold detail.rebind_sequence_container.
  rewrite Hno. unfold detail.rebind_prefer_other. rewrite HA.
  rewrite helper_loop with (A' := A') by exact HA'. reflexivity.
Qed.


(** A container of the usual shape [Tmpl<T, Allocator>] is rebound to
    [Tmpl<Rebind, Allocator'>]. *)
Lemma structural_rebind_element_and_allocator (tmpl : string)
  (Old A A' Rebind : type) :
  detail.has_other D (Inst tmpl [Old; A]) Rebind = false ->
  allocator_type D (Inst tmpl [Old; A]) = Some A ->
  detail.rebind_alloc D A Rebind = Some A' ->
  detail.rebind_sequence_container D (Inst tmpl [Old; A]) Rebind
  = Some (Inst tmpl [Rebind; A']).
Proof.
  intros Hno HA HA'. rewrite (@structural_rebind tmpl Old [A] A A' Rebind Hno HA HA').
  simpl. unfold checked_as. now rewrite is_same_refl.
Qed.



End RebindingFacts.



(** The other half of the rebinding test: [MyList] is no template and
    rebinds through its [other] to [std::list]. *)
Example rebind_MyList :
  detail.rebind_sequence_container program.classes program.MyList program.double
  = Some (program.list program.double).
Proof. reflexivity. Qed.

(** C2.  The library's own string class
    [extendable_basic_string<char, char_traits<char>, allocator<char>>]
    declares no [other] and is rebound structurally.  Rebinding it to
    [int] turns the traits parameter, which is not the allocator, into
    [allocator<char>]: [rebind_alloc_if_matches] hands the allocator, not
    the inspected parameter, to its helper, whose [false] case returns
    what it was handed. *)
Theorem structural_rebind_overwrites_traits :
  let string_class :=
    program.extendable_basic_string program.char
      (program.char_traits program.char) (program.allocator program.char) in
  detail.has_other program.classes string_class program.int = false
  /\ detail.rebind_sequence_container program.classes string_class program.int
     = Some (program.extendable_basic_string program.int
               (program.allocator program.char) (program.allocator program.int))
  /\ detail.rebind_sequence_container program.classes string_class program.int
     <> Some (program.extendable_basic_string program.int
                (program.char_traits program.char) (program.allocator program.int)).
Proof.
  repeat split; try reflexivity. discriminate.
Qed.

(** ** Storage and the standard algorithms *)

Section AlgorithmFacts.

Context {A : Type}.

Implicit Types (a c l : list A) (p : A -> bool).

Lemma length_store a i (x : A) : length (std.store a i x) = length a.
Proof.
  revert i; induction a as [| y a IH]; intros [| i]; simpl; auto.
Qed.

Lemma firstn_store_written a i (x : A) :
  i < length a -> firstn (S i) (std.store a i x) = firstn i a ++ [x].
Proof.
  revert i; induction a as [| y a IH]; intros [| i] Hi; simpl in *; try lia.
  - reflexivity.
  - f_equal. apply IH. lia.
Qed.

Lemma skipn_store_before a i j (x : A) :
  i < j -> skipn j (std.store a i x) = skipn j a.
Proof.
  revert i j; induction a as [| y a IH]; intros [| i] [| j] Hij;
    simpl; try lia; auto.
  apply IH. lia.
Qed.

Lemma skipn_nth_error a i (x : A) :
  nth_error a i = Some x -> skipn i a = x :: skipn (S i) a.
Proof.
  revert i; induction a as [| y a IH]; intros [| i]; simpl; try discriminate.
  - now intros [= ->].
  - intros H. now rewrite (IH i H).
Qed.

Lemma firstn_length_app a l : firstn (length a) (a ++ l) = a.
Proof.
  induction a as [| y a IH]; simpl; [reflexivity | now rewrite IH].
Qed.

Lemma skipn_S_length_app a (x : A) l : skipn (S (length a)) (a ++ x :: l) = l.
Proof.
  induction a as [| y a IH]; simpl; auto.
Qed.

Lemma nth_error_in_range a i :
  i < length a -> exists x, nth_error a i = Some x.
Proof.
  intros Hi. destruct (nth_error a i) eqn:E; eauto.
  apply nth_error_None in E. lia.
Qed.

Lemma length_find_if_not p l : length (std.find_if_not p l) <= length l.
Proof.
  induction l as [| x l IH]; simpl; auto.
  destruct (p x); simpl; lia.
Qed.

Lemma find_if_not_prefix p l :
  firstn (length l - length (std.find_if_not p l)) l = longest_prefix p l.
Proof.
  induction l as [| x l IH]; auto.
  cbn [std.find_if_not longest_prefix]. destruct (p x).
  - pose proof (length_find_if_not p l).
    change (length (x :: l)) with (S (length l)).
    replace (S (length l) - length (std.find_if_not p l))
      with (S (length l - length (std.find_if_not p l))) by lia.
    cbn [firstn]. now rewrite IH.
  - now rewrite Nat.sub_diag.
Qed.

Lemma find_if_not_cases p l :
  (std.find_if_not p l = [] /\ forallb p l = true)
  \/ (exists pre x rest,
        l = pre ++ x :: rest /\ forallb p pre = true /\ p x = false
        /\ std.find_if_not p l = x :: rest).
Proof.
  induction l as [| y l IH]; simpl.
  - now left.
  - destruct (p y) eqn:Hy.
    + destruct IH as [[H1 H2] | (pre & x & rest & -> & Hpre & Hx & Hfind)].
      * now left.
      * right. exists (y :: pre), x, rest. simpl. rewrite Hy, Hpre. auto.
    + right. exists [], y, l. auto.
Qed.

Lemma filter_all p l : forallb p l = true -> List.filter p l = l.
Proof.
  induction l as [| x l IH]; simpl; auto.
  intros H. apply andb_true_iff in H as [Hx Hl]. rewrite Hx. now rewrite IH.
Qed.

(** The invariant of the loop of [std::remove_if]: the storage keeps its
    length, and up to the write position it holds what was there before
    followed by the elements to keep among those read. *)
Lemma remove_if_loop_spec p n : forall a result first a' r,
  result <= first -> first + n = length a ->
  std.remove_if_loop p n a result first = (a', r) ->
  length a' = length a
  /\ r <= result + n
  /\ firstn r a'
     = firstn result a ++ List.filter (fun x => negb (p x)) (skipn first a).
Proof.
  induction n as [| n IH]; intros a result first a' r Hle Hlen; simpl.
  - intros [= <- <-]. rewrite skipn_all2 by lia. simpl.
    rewrite app_nil_r. repeat split; lia.
  - destruct (@nth_error_in_range a first) as [x Hx]; [lia |].
    rewrite Hx, (skipn_nth_error _ _ Hx). simpl.
    destruct (p x); simpl.
    + intros H. apply IH in H; [| lia | lia].
      destruct H as (H1 & H2 & H3). repeat split; auto; lia.
    + intros H. apply IH in H; [| lia | rewrite length_store; lia].
      destruct H as (H1 & H2 & H3). rewrite length_store in H1.
      repeat split; auto; try lia.
      rewrite H3, firstn_store_written by lia.
      rewrite skipn_store_before by lia.
      now rewrite <- app_assoc.
Qed.

(** [std::remove_if] followed by [erase] to the end keeps exactly the
    elements that do not satisfy [p], in their order. *)
Lemma erase_remove_if p c :
  (let '(a, new_end) := std.remove_if p c in std.erase a new_end [])
  = Returns (List.filter (fun x => negb (p x)) c).
Proof.
  unfold std.remove_if, std.find_if.
  destruct (find_if_not_cases (fun x => negb (p x)) c)
    as [[Hend Hall] | (pre & x & rest & -> & Hpre & Hx & Hfind)].
  - rewrite Hend. simpl. unfold std.erase. simpl.
    rewrite Nat.sub_0_r, firstn_all, app_nil_r, filter_all; auto.
  - rewrite Hfind. simpl std.is_end. cbv iota.
    replace (length (pre ++ x :: rest) - length (x :: rest)) with (length pre)
      by (rewrite length_app; simpl; lia).
    destruct (std.remove_if_loop p (length (pre ++ x :: rest) - S (length pre))
                (pre ++ x :: rest) (length pre) (S (length pre)))
      as [a r] eqn:Hloop.
    apply remove_if_loop_spec in Hloop;
      [| lia | rewrite length_app; simpl; lia].
    destruct Hloop as (Hlen & Hr & Hkept).
    assert (Hr' : r <= length a) by (rewrite Hlen, length_app in *; simpl in *; lia).
    unfold std.erase. rewrite length_skipn. cbn [length].
    assert (H1 : (0 <=? length a - r) = true) by (apply Nat.leb_le; lia).
    assert (H2 : (length a - r <=? length a) = true) by (apply Nat.leb_le; lia).
    rewrite H1, H2. cbn [andb]. rewrite app_nil_r.
    replace (length a - (length a - r)) with r by lia.
    rewrite Hkept, firstn_length_app, skipn_S_length_app.
    rewrite filter_app. simpl. rewrite Hx.
    rewrite filter_all with (l := pre) by exact Hpre. reflexivity.
Qed.

(** The invariant of the loop of [std::transform] onto its own input. *)
Lemma transform_loop_spec (f : A -> A) n : forall a i,
  i + n = length a ->
  std.transform_loop f n a i = firstn i a ++ List.map f (skipn i a).
Proof.
  induction n as [| n IH]; intros a i Hlen; simpl.
  - rewrite skipn_all2, firstn_all2 by lia. simpl. now rewrite app_nil_r.
  - destruct (@nth_error_in_range a i) as [x Hx]; [lia |].
    rewrite Hx, (skipn_nth_error _ _ Hx). simpl.
    rewrite IH by (rewrite length_store; lia).
    rewrite firstn_store_written, skipn_store_before by lia.
    now rewrite <- app_assoc.
Qed.

Lemma transform_spec (f : A -> A) c : std.transform f c = List.map f c.
Proof.
  unfold std.transform. now rewrite transform_loop_spec.
Qed.

End AlgorithmFacts.

(** ** The member functions *)

Section MemberFacts.

Context {A : Type}.

Implicit Types (this container : list A) (p : A -> bool).




Lemma filter_loop p this : forall temp,
  fold_left (fun temp item => if p item then std.emplace_end temp item else temp)
    this temp
  = temp ++ List.filter p this.
Proof.
  induction this as [| x this IH]; intros temp; simpl.
  - now rewrite app_nil_r.
  - rewrite IH. destruct (p x); [| reflexivity].
    unfold std.emplace_end. now rewrite <- app_assoc.
Qed.

Lemma filter_spec p this : cec.filter p this = List.filter p this.
Proof.
  unfold cec.filter. now rewrite filter_loop.
Qed.

Lemma map_loop {B : Type} (f : A -> B) this : forall mapped,
  fold_left (fun mapped item => std.emplace_end mapped (f item)) this mapped
  = mapped ++ List.map f this.
Proof.
  induction this as [| x this IH]; intros mapped; simpl.
  - now rewrite app_nil_r.
  - rewrite IH. unfold std.emplace_end. now rewrite <- app_assoc.
Qed.

Lemma map_spec {B : Type} (f : A -> B) this : cec.map f this = List.map f this.
Proof.
  unfold cec.map. now rewrite map_loop.
Qed.

Lemma erase_if_spec p this :
  cec.erase_if p this = Returns (List.filter (fun x => negb (p x)) this).
Proof.
  apply erase_remove_if.
Qed.

Lemma remove_loop_of_object (eqb : A -> A -> bool) (value : A) n :
  forall a result first,
    std.remove_loop eqb (std.object value) n a result first
    = std.remove_if_loop (fun x => eqb x value) n a result first.
Proof.
  induction n as [| n IH]; intros a result first; simpl; [reflexivity |].
  destruct (nth_error a first) as [x |]; [| reflexivity].
  now rewrite !IH.
Qed.

Lemma erase_all_spec (eqb : A -> A -> bool) (value : A) this :
  cec.erase_all eqb (std.object value) this
  = Returns (List.filter (fun x => negb (eqb x value)) this).
Proof.
  rewrite <- (erase_remove_if (fun x => eqb x value)).
  unfold cec.erase_all, std.remove, std.remove_if. cbn [std.refers].
  change (std.equals_value eqb (std.object value) this)
    with (fun x => eqb x value).
  now rewrite remove_loop_of_object.
Qed.








Lemma count_if_loop p this : forall n : Z,
  fold_left (fun n x => if p x then (n + 1)%Z else n) this n
  = (n + Z.of_nat (length (List.filter p this)))%Z.
Proof.
  induction this as [| x this IH]; intros n; simpl.
  - lia.
  - rewrite IH. destruct (p x); simpl length; lia.
Qed.

Lemma take_spec (num : Z) this :
  cec.take num this
  = if in_range num this then Returns (firstn (Z.to_nat num) this) else Undefined.
Proof.
  unfold cec.take, std.next, std.begin, in_range.
  destruct ((0 <=? num)%Z && (num <=? Z.of_nat (length this))%Z) eqn:E; simpl;
    [| reflexivity].
  apply andb_true_iff in E as [E1 E2].
  apply Z.leb_le in E1. apply Z.leb_le in E2.
  unfold std.construct. rewrite length_skipn.
  assert (H : (length this - Z.to_nat num <=? length this) = true)
    by (apply Nat.leb_le; lia).
  rewrite H. f_equal. f_equal. lia.
Qed.

Lemma take_rvalue_spec (num : Z) this :
  cec.take_rvalue num this
  = if in_range num this then Returns (firstn (Z.to_nat num) this) else Undefined.
Proof.
  unfold cec.take_rvalue, std.next, std.begin, in_range.
  destruct ((0 <=? num)%Z && (num <=? Z.of_nat (length this))%Z) eqn:E; simpl;
    [| reflexivity].
  apply andb_true_iff in E as [E1 E2].
  apply Z.leb_le in E1. apply Z.leb_le in E2.
  unfold std.erase. rewrite length_skipn. cbn [length].
  assert (H : (length this - Z.to_nat num <=? length this) = true)
    by (apply Nat.leb_le; lia).
  rewrite H. simpl. rewrite app_nil_r. f_equal. f_equal. lia.
Qed.

Lemma take_while_spec p this :
  cec.take_while p this = Returns (longest_prefix p this).
Proof.
  unfold cec.take_while, std.construct, std.begin.
  pose proof (length_find_if_not p this) as H.
  apply Nat.leb_le in H. rewrite H. now rewrite find_if_not_prefix.
Qed.

Lemma take_while_rvalue_spec p this :
  cec.take_while_rvalue p this = Returns (longest_prefix p this).
Proof.
  unfold cec.take_while_rvalue, std.erase, std.begin.
  pose proof (length_find_if_not p this) as H.
  apply Nat.leb_le in H. rewrite H. simpl.
  now rewrite app_nil_r, find_if_not_prefix.
Qed.

(** C3, as the code has it.  Without a seed, [reduce] reads and steps
    over the first element with no check: on an empty container its
    behaviour is undefined, and on a container with first element [x] it
    returns the fold of [f] over the remaining elements, seeded with
    [x]. *)
Theorem reduce_without_seed (f : A -> A -> A) :
  cec.reduce f [] = Undefined
  /\ forall x rest, cec.reduce f (x :: rest) = Returns (fold_left f rest x).
Proof.
  split; [reflexivity |].
  intros x rest. unfold cec.reduce, std.next, std.begin.
  replace (1 <=? Z.of_nat (length (x :: rest)))%Z with true
    by (symmetry; apply Z.leb_le; simpl length; lia).
  reflexivity.
Qed.

(** C6.  The overload on an rvalue receiver and the overload on a
    receiver that is kept return the same elements: for [concat],
    [filter], [take], [take_while] and [map] with a function into the
    element type.  [take] is undefined for both overloads on the same
    arguments. *)
Theorem rvalue_overloads_agree p (f : A -> A) (num : Z) this container :
  cec.concat_rvalue this container = cec.concat this container
  /\ cec.filter_rvalue p this = Returns (cec.filter p this)
  /\ cec.take_rvalue num this = cec.take num this
  /\ cec.take_while_rvalue p this = cec.take_while p this
  /\ cec.map_rvalue f this = cec.map f this.
Proof.
  repeat split.
  - unfold cec.filter_rvalue. rewrite erase_if_spec, filter_spec.
    f_equal. apply filter_ext. intros x. apply negb_involutive.
  - now rewrite take_spec, take_rvalue_spec.
  - now rewrite take_while_spec, take_while_rvalue_spec.
  - unfold cec.map_rvalue, cec.transform. now rewrite transform_spec, map_spec.
Qed.

(** C8.  [count_if(p)] is the number of elements of [filter(p)]. *)
Theorem count_if_is_length_of_filter p this :
  cec.count_if p this = Z.of_nat (length (cec.filter p this)).
Proof.
  unfold cec.count_if, std.count_if, std.begin.
  now rewrite count_if_loop, filter_spec.
Qed.


End MemberFacts.



(** C3, as the claim has it, fails on the empty container of [nat]: the
    call is no defined failure. *)
Lemma reduce_on_empty_is_no_defined_failure :
  cec.reduce Nat.add [] = Undefined
  /\ ~ defined_failure (cec.reduce Nat.add []).
Proof.
  split; [reflexivity |].
  intros [what H]. discriminate H.
Qed.

(** The tests of the library on [reduce], [filter], [take] and
    [take_while]. *)
Example reduce_test : cec.reduce Nat.add [1; 2; 3; 4] = Returns 10.
Proof. reflexivity. Qed.

Example filter_test :
  cec.filter Nat.even [1; 2; 3; 4] = [2; 4]
  /\ cec.filter_rvalue Nat.even [1; 2; 3; 4] = Returns [2; 4].
Proof. split; reflexivity. Qed.

Example take_test :
  cec.take 2 [1; 2; 3; 4] = Returns [1; 2]
  /\ cec.take 0 [1; 2; 3; 4] = Returns []
  /\ cec.take 5 [1; 2; 3; 4] = Undefined.
Proof. repeat split; reflexivity. Qed.

Example take_while_test :
  cec.take_while Nat.even [2; 4; 6; 9; 10] = Returns [2; 4; 6].
Proof. reflexivity. Qed.

(** ** Zipping *)

Section ZipFacts.

Context {A B : Type}.

Lemma zip_loop_spec (first_iter : list A) : forall (second_iter : list B) zipped,
  cec.zip_loop first_iter second_iter zipped
  = Returns (zipped ++ combine first_iter second_iter,
             (skipn (Nat.min (length first_iter) (length second_iter)) first_iter,
              skipn (Nat.min (length first_iter) (length second_iter)) second_iter)).
Proof.
  induction first_iter as [| a first_iter IH]; intros [| b second_iter] zipped;
    simpl; try now rewrite app_nil_r.
  rewrite IH. unfold std.emplace_end. now rewrite <- app_assoc.
Qed.

Lemma nth_error_combine (l : list A) : forall (k : list B) i,
  nth_error (combine l k) i
  = match nth_error l i, nth_error k i with
    | Some a, Some b => Some (a, b)
    | _, _ => None
    end.
Proof.
  induction l as [| a l IH]; intros [| b k] [| i]; simpl; auto.
  - now destruct (nth_error l i).
Qed.

End ZipFacts.

Section ZipNFacts.

Lemma container_size_is_length {T : Type} (has_size : bool) (c : list T) :
  detail.container_size has_size c = length c.
Proof.
  destruct has_size; simpl; [reflexivity |].
  unfold std.distance, std.begin. simpl. lia.
Qed.

Lemma min_element_is_min (rest : list nat) : forall first,
  std.min_element first rest = fold_left Nat.min rest first.
Proof.
  unfold std.min_element.
  induction rest as [| x rest IH]; intros first; simpl; [reflexivity |].
  rewrite IH. f_equal.
  destruct (x <? first) eqn:E.
  - apply Nat.ltb_lt in E. lia.
  - apply Nat.ltb_ge in E. lia.
Qed.

Lemma smallest_size (Ts : list Type) : forall has_size (cs : detail.containers Ts) m,
  fold_left Nat.min (cec.sizes Ts has_size cs) m = shortest Ts cs m.
Proof.
  induction Ts as [| T Ts IH]; intros has_size cs m; simpl; [reflexivity |].
  now rewrite container_size_is_length, IH.
Qed.

Lemma shortest_le (Ts : list Type) : forall (cs : detail.containers Ts) m,
  shortest Ts cs m <= m.
Proof.
  induction Ts as [| T Ts IH]; intros cs m; simpl; [lia |].
  specialize (IH (snd cs) (Nat.min m (length (fst cs)))). lia.
Qed.

Lemma all_at_least_le (Ts : list Type) : forall (cs : detail.containers Ts) n k,
  k <= n -> all_at_least Ts n cs -> all_at_least Ts k cs.
Proof.
  induction Ts as [| T Ts IH]; intros cs n k Hk; simpl; [auto |].
  intros [H1 H2]. split; [lia | eauto].
Qed.

Lemma all_at_least_shortest (Ts : list Type) : forall (cs : detail.containers Ts) m,
  all_at_least Ts (shortest Ts cs m) cs.
Proof.
  induction Ts as [| T Ts IH]; intros cs m; simpl; [exact I |].
  split.
  - pose proof (shortest_le Ts (snd cs) (Nat.min m (length (fst cs)))). lia.
  - apply IH.
Qed.

Lemma nth_tuple_beyond (Ts : list Type) : forall (cs : detail.containers Ts) m i,
  shortest Ts cs m <= i -> i < m -> nth_tuple Ts cs i = None.
Proof.
  induction Ts as [| T Ts IH]; intros cs m i Hle Hlt; [simpl in *; lia |].
  destruct cs as [c cs]. simpl in *.
  destruct (nth_error c i) as [v |] eqn:Hv; [| reflexivity].
  assert (i < length c) by (apply nth_error_Some; congruence).
  rewrite (IH cs (Nat.min m (length c)) i); auto. lia.
Qed.

Lemma skip_all_0 (Ts : list Type) : forall cs : detail.containers Ts,
  skip_all Ts 0 cs = cs.
Proof.
  induction Ts as [| T Ts IH]; intros cs; simpl; [reflexivity |].
  rewrite IH. now destruct cs.
Qed.

(** One round of the loop of [zip_n] on iterators none of which is at
    its end. *)
Lemma iter_tuple_step (Ts : list Type) : forall its : detail.iter_tuple Ts,
  all_at_least Ts 1 its ->
  exists v,
    nth_tuple Ts its 0 = Some v
    /\ detail.get_iter_tuple_value Ts its = Returns v
    /\ detail.advance_iter_tuple Ts its = Returns (skip_all Ts 1 its).
Proof.
  induction Ts as [| T Ts IH]; intros its; simpl.
  - intros _. exists tt. destruct its. auto.
  - intros [H1 H2]. destruct (IH (snd its) H2) as (vs & Hn & Hv & Ha).
    destruct its as [[| x it] its']; simpl in *; [lia |].
    exists (x, vs). rewrite Hn, Hv, Ha. auto.
Qed.

Lemma skip_all_S (Ts : list Type) : forall (cs : detail.containers Ts) n,
  skip_all Ts n (skip_all Ts 1 cs) = skip_all Ts (S n) cs.
Proof.
  induction Ts as [| T Ts IH]; intros cs n; simpl; [reflexivity |].
  rewrite IH. f_equal. destruct (fst cs); simpl; [now rewrite skipn_nil | reflexivity].
Qed.

Lemma all_at_least_skip (Ts : list Type) : forall (cs : detail.containers Ts) n,
  all_at_least Ts (S n) cs -> all_at_least Ts n (skip_all Ts 1 cs).
Proof.
  induction Ts as [| T Ts IH]; intros cs n; [simpl; auto |].
  destruct cs as [[| x c] cs]; simpl; intros [H1 H2];
    (split; [simpl in *; lia | auto]).
Qed.

Lemma nth_tuple_skip (Ts : list Type) : forall (cs : detail.containers Ts) i,
  nth_tuple Ts (skip_all Ts 1 cs) i = nth_tuple Ts cs (S i).
Proof.
  induction Ts as [| T Ts IH]; intros cs i; simpl; [reflexivity |].
  rewrite IH. destruct (fst cs); simpl; [now destruct i | reflexivity].
Qed.

(** The loop of [zip_n], run for no more rounds than the shortest
    container has elements. *)
Lemma zip_n_loop_spec (Ts : list Type) (n : nat) :
  forall (its : detail.iter_tuple Ts) zipped,
    all_at_least Ts n its ->
    exists tuples,
      cec.zip_n_loop Ts n its zipped = Returns (zipped ++ tuples, skip_all Ts n its)
      /\ length tuples = n
      /\ forall i, i < n -> nth_error tuples i = nth_tuple Ts its i.
Proof.
  induction n as [| n IH]; intros its zipped Hn.
  - exists []. simpl. rewrite app_nil_r, skip_all_0. repeat split; auto. lia.
  - destruct (@iter_tuple_step Ts its) as (v & Hv0 & Hv & Hadv).
    { apply all_at_least_le with (n := S n); [lia | exact Hn]. }
    destruct (IH (skip_all Ts 1 its) (std.emplace_end zipped v)) as (tuples & Hrun & Hlen & Hnth).
    { now apply all_at_least_skip. }
    exists (v :: tuples). simpl. rewrite Hv, Hadv. simpl. rewrite Hrun.
    unfold std.emplace_end. rewrite <- app_assoc, skip_all_S. simpl.
    repeat split; [lia |].
    intros [| i] Hi; simpl.
    + now rewrite Hv0.
    + rewrite Hnth by lia. apply nth_tuple_skip.
Qed.

End ZipNFacts.

Lemma zip_n_run_spec (A : Type) (Ts : list Type) (has_size : list bool)
  (this : list A) (cs : detail.containers Ts) :
  exists zipped,
    cec.zip_n_run has_size this cs
    = Returns (zipped, skip_all (A :: Ts) (shortest Ts cs (length this)) (this, cs))
    /\ length zipped = shortest Ts cs (length this)
    /\ forall i, nth_error zipped i = nth_tuple (A :: Ts) (this, cs) i.
Proof.
  unfold cec.zip_n_run.
  cbn [cec.sizes fst snd hd tl].
  rewrite container_size_is_length, min_element_is_min, smallest_size.
  set (n := shortest Ts cs (length this)).
  assert (Hn : n <= length this) by apply shortest_le.
  destruct (@zip_n_loop_spec (A :: Ts) n (this, cs) []) as (zipped & Hrun & Hlen & Hnth).
  { split; [exact Hn | apply all_at_least_shortest]. }
  exists zipped. repeat split; auto.
  intros i. destruct (Nat.lt_ge_cases i n) as [Hi | Hi]; [auto |].
  replace (nth_error zipped i) with (@None (detail.tuple (A :: Ts)))
    by (symmetry; apply nth_error_None; lia).
  cbn [nth_tuple fst snd].
  destruct (nth_error this i) as [v |] eqn:Hv; [| reflexivity].
  assert (i < length this) by (apply nth_error_Some; congruence).
  now rewrite (@nth_tuple_beyond Ts cs (length this) i).
Qed.

(** C4.  [zip] and [zip_n] return, for the shortest input having [n]
    elements, exactly [n] elements, the [i]-th made of the [i]-th
    element of every input in the order of the inputs, and every
    iterator ends [n] steps from its beginning, so not beyond the end of
    its container; the calls return, so no iterator was moved or read
    at its end.  A container of three elements zipped with one of five
    gives the three pairs of their first three elements. *)
Theorem zip_truncates_to_shortest :
  (forall (A B : Type) (this : list A) (other : list B),
      let n := Nat.min (length this) (length other) in
      cec.zip_loop (std.begin this) (std.begin other) []
      = Returns (combine this other, (skipn n this, skipn n other))
      /\ cec.zip this other = Returns (combine this other)
      /\ length (combine this other) = n
      /\ forall i,
           nth_error (combine this other) i
           = match nth_error this i, nth_error other i with
             | Some a, Some b => Some (a, b)
             | _, _ => None
             end)
  /\ (forall (A : Type) (Ts : list Type) (has_size : list bool)
        (this : list A) (cs : detail.containers Ts),
      let n := shortest Ts cs (length this) in
      exists zipped,
        cec.zip_n_run has_size this cs
        = Returns (zipped, skip_all (A :: Ts) n (this, cs))
        /\ cec.zip_n has_size this cs = Returns zipped
        /\ length zipped = n
        /\ all_at_least (A :: Ts) n (this, cs)
        /\ forall i, nth_error zipped i = nth_tuple (A :: Ts) (this, cs) i)
  /\ (forall (A B : Type) (a1 a2 a3 : A) (b1 b2 b3 b4 b5 : B),
      cec.zip [a1; a2; a3] [b1; b2; b3; b4; b5]
      = Returns [(a1, b1); (a2, b2); (a3, b3)]
      /\ cec.zip_n (Ts := [B]) [] [a1; a2; a3] ([b1; b2; b3; b4; b5], tt)
         = Returns [(a1, (b1, tt)); (a2, (b2, tt)); (a3, (b3, tt))]).
Proof.
  split; [| split].
  - intros A B this other n.
    assert (Hloop := zip_loop_spec this other []).
    unfold cec.zip, std.begin. rewrite Hloop. simpl.
    repeat split.
    + apply length_combine.
    + intros i. apply nth_error_combine.
  - intros A Ts has_size this cs n.
    destruct (@zip_n_run_spec A Ts has_size this cs) as (zipped & Hrun & Hlen & Hnth).
    exists zipped. unfold cec.zip_n. rewrite Hrun. simpl.
    repeat split; auto.
    + apply shortest_le.
    + apply all_at_least_shortest.
  - intros. split; reflexivity.
Qed.

(** The test of the library on [zip_n]: a vector, a list and a string of
    four elements each. *)
Example zip_n_test :
  cec.zip_n (Ts := [nat : Type; ascii : Type]) [true; true; true]
    [4; 3; 2; 1] ([1; 2; 3; 4], (list_ascii_of_string "cats", tt))
  = Returns [(4, (1, ("c"%char, tt))); (3, (2, ("a"%char, tt)));
             (2, (3, ("t"%char, tt))); (1, (4, ("s"%char, tt)))].
Proof. reflexivity. Qed.

(** ** Pairwise zip and [zip_n] of one container *)







(** ** Sorting *)

Section SortingFacts.

Context {A : Type}.

Variable comp : A -> A -> bool.

Hypothesis comp_order : strict_weak_order comp.

Implicit Types (l : list A) (tmp : list (list A)).

Lemma comp_asymmetric x y : comp x y = true -> comp y x = false.
Proof.
  intros Hxy. destruct (comp y x) eqn:Hyx; [| reflexivity].
  pose proof (transitive comp_order _ _ _ Hxy Hyx) as Hxx.
  rewrite (irreflexive comp_order) in Hxx. discriminate.
Qed.

Lemma comp_negatively_transitive x y z :
  comp x y = false -> comp y z = false -> comp x z = false.
Proof.
  intros Hxy Hyz. destruct (comp x z) eqn:Hxz; [| reflexivity].
  destruct (comp y x) eqn:Hyx.
  - rewrite (transitive comp_order _ _ _ Hyx Hxz) in Hyz. discriminate.
  - destruct (comp z y) eqn:Hzy.
    + rewrite (transitive comp_order _ _ _ Hxz Hzy) in Hxy. discriminate.
    + destruct (equivalence_transitive comp_order _ _ _ Hxy Hyx Hyz Hzy).
      congruence.
Qed.

Lemma ordered_non_decreasing l : ordered comp l -> non_decreasing comp l.
Proof.
  induction l as [| x l IH]; intros Hl i j a b Hij Hi Hj.
  - destruct i; discriminate.
  - destruct Hl as [Hx Hl]. destruct j as [| j]; [lia |].
    destruct i as [| i]; simpl in *.
    + injection Hi as <-. rewrite Forall_forall in Hx.
      apply Hx. eapply nth_error_In; eauto.
    + apply (IH Hl i j); auto. lia.
Qed.

Lemma ordered_is_sorted l : ordered comp l -> std.is_sorted comp l = true.
Proof.
  induction l as [| x l IH]; [reflexivity |].
  intros [Hx Hl]. simpl. destruct l as [| y l]; [reflexivity |].
  rewrite IH by exact Hl. inversion Hx as [| ? ? Hy _]; subst.
  now rewrite Hy.
Qed.

(** *** Straight insertion *)

Lemma linear_insert_permutation x l : Permutation (x :: l) (std.linear_insert comp x l).
Proof.
  induction l as [| y l IH]; simpl; [reflexivity |].
  destruct (comp x y); [reflexivity |].
  rewrite perm_swap. now apply perm_skip.
Qed.

Lemma linear_insert_ordered x l : ordered comp l -> ordered comp (std.linear_insert comp x l).
Proof.
  induction l as [| y l IH]; simpl.
  - intros _. split; [constructor | exact I].
  - intros [Hy Hl]. destruct (comp x y) eqn:Hxy; simpl.
    + repeat split; auto. constructor.
      * now apply comp_asymmetric.
      * rewrite Forall_forall in *. intros z Hz.
        apply comp_negatively_transitive with (y := y); auto.
        now apply comp_asymmetric.
    + split; [| auto].
      rewrite <- linear_insert_permutation. now constructor.
Qed.

Lemma sort_loop l : forall sorted,
  ordered comp sorted ->
  Permutation (l ++ sorted)
    (fold_left (fun sorted x => std.linear_insert comp x sorted) l sorted)
  /\ ordered comp (fold_left (fun sorted x => std.linear_insert comp x sorted) l sorted).
Proof.
  induction l as [| x l IH]; intros sorted Hs; simpl.
  - split; [reflexivity | exact Hs].
  - destruct (IH (std.linear_insert comp x sorted)) as [Hperm Hord].
    { now apply linear_insert_ordered. }
    split; [| exact Hord].
    rewrite <- Hperm, <- linear_insert_permutation.
    apply Permutation_middle.
Qed.

Lemma sort_spec l : Permutation l (std.sort comp l) /\ ordered comp (std.sort comp l).
Proof.
  destruct (sort_loop l [] I) as [Hperm Hord].
  rewrite app_nil_r in Hperm. now split.
Qed.

(** *** The merge sort of the lists *)

Lemma merge_nil_l l : std.merge comp [] l = l.
Proof. now destruct l. Qed.

Lemma merge_nil_r l : std.merge comp l [] = l.
Proof. now destruct l. Qed.

Lemma merge_cons x l1 y l2 :
  std.merge comp (x :: l1) (y :: l2)
  = if comp y x then y :: std.merge comp (x :: l1) l2
    else x :: std.merge comp l1 (y :: l2).
Proof. reflexivity. Qed.

Lemma merge_permutation l1 : forall l2, Permutation (l1 ++ l2) (std.merge comp l1 l2).
Proof.
  induction l1 as [| x l1 IH1]; intros l2.
  - now rewrite merge_nil_l.
  - induction l2 as [| y l2 IH2].
    + now rewrite merge_nil_r, app_nil_r.
    + rewrite merge_cons. destruct (comp y x).
      * rewrite <- IH2. symmetry. apply (Permutation_middle (x :: l1) l2 y).
      * simpl. apply perm_skip. apply IH1.
Qed.

Lemma merge_ordered l1 : forall l2,
  ordered comp l1 -> ordered comp l2 -> ordered comp (std.merge comp l1 l2).
Proof.
  induction l1 as [| x l1 IH1]; intros l2 H1 H2.
  - now rewrite merge_nil_l.
  - induction l2 as [| y l2 IH2].
    + now rewrite merge_nil_r.
    + rewrite merge_cons. destruct H1 as [Hx H1], H2 as [Hy H2].
      destruct (comp y x) eqn:Hyx; cbn [ordered]; split.
      * rewrite <- merge_permutation.
        apply Forall_app. split; [| exact Hy].
        constructor; [now apply comp_asymmetric |].
        rewrite Forall_forall in *. intros z Hz.
        apply comp_negatively_transitive with (y := x); auto.
        now apply comp_asymmetric.
      * apply IH2. exact H2.
      * rewrite <- merge_permutation.
        apply Forall_app. split; [exact Hx |].
        constructor; [exact Hyx |].
        rewrite Forall_forall in *. intros z Hz.
        apply comp_negatively_transitive with (y := y); auto.
      * apply IH1; [exact H1 | now split].
Qed.

Lemma add_carry_spec tmp : forall carry,
  ordered comp carry -> Forall (ordered comp) tmp ->
  Permutation (carry ++ List.concat tmp) (List.concat (std.add_carry comp carry tmp))
  /\ Forall (ordered comp) (std.add_carry comp carry tmp).
Proof.
  induction tmp as [| counter tmp IH]; intros carry Hc Htmp; simpl.
  - rewrite app_nil_r. split; [reflexivity | now repeat constructor].
  - inversion Htmp as [| ? ? Hcounter Hrest]; subst.
    destruct counter as [| z counter]; simpl.
    + split; [reflexivity | now constructor].
    + destruct (IH (std.merge comp (z :: counter) carry)) as [Hperm Hord].
      { now apply merge_ordered. }
      { exact Hrest. }
      split; [| constructor; [exact I | exact Hord]].
      rewrite <- Hperm, <- merge_permutation.
      change (z :: counter ++ List.concat tmp)
        with ((z :: counter) ++ List.concat tmp).
      rewrite !app_assoc. apply Permutation_app_tail.
      apply Permutation_app_comm.
Qed.

Lemma fill_counters_spec l : forall tmp,
  Forall (ordered comp) tmp ->
  Permutation (l ++ List.concat tmp) (List.concat (std.fill_counters comp l tmp))
  /\ Forall (ordered comp) (std.fill_counters comp l tmp).
Proof.
  induction l as [| x l IH]; intros tmp Htmp; simpl.
  - split; [reflexivity | exact Htmp].
  - destruct (@add_carry_spec tmp [x]) as [Hperm Hord];
      [split; [constructor | exact I] | exact Htmp |].
    destruct (IH _ Hord) as [Hperm' Hord'].
    split; [| exact Hord'].
    rewrite <- Hperm', <- Hperm. simpl. apply Permutation_middle.
Qed.

Lemma merge_counters_spec tmp : forall below,
  ordered comp below -> Forall (ordered comp) tmp ->
  Permutation (below ++ List.concat tmp) (std.merge_counters comp below tmp)
  /\ ordered comp (std.merge_counters comp below tmp).
Proof.
  induction tmp as [| counter tmp IH]; intros below Hb Htmp; simpl.
  - rewrite app_nil_r. split; [reflexivity | exact Hb].
  - inversion Htmp as [| ? ? Hcounter Hrest]; subst.
    destruct (IH (std.merge comp counter below)) as [Hperm Hord].
    { now apply merge_ordered. }
    { exact Hrest. }
    split; [| exact Hord].
    rewrite <- Hperm, <- merge_permutation.
    rewrite !app_assoc. apply Permutation_app_tail.
    apply Permutation_app_comm.
Qed.

Lemma list_sort_spec l :
  Permutation l (std.list_sort comp l) /\ ordered comp (std.list_sort comp l).
Proof.
  unfold std.list_sort.
  destruct (@fill_counters_spec l []) as [Hperm Hord]; [constructor |].
  destruct (@merge_counters_spec (std.fill_counters comp l []) [] I Hord)
    as [Hperm' Hord'].
  split; [| exact Hord'].
  rewrite <- Hperm'. simpl. rewrite <- Hperm. simpl. now rewrite app_nil_r.
Qed.

End SortingFacts.

(** C7.  [sort] chooses by the iterator category of the wrapped class:
    [std::sort] for random-access iterators, the member [sort] of the
    class otherwise.  Under one comparator that is a strict weak
    ordering, the range sort on a random-access class and the member
    sort of the list classes each leave a non-decreasing permutation of
    the elements they were given, so two arrangements of one multiset
    end as non-decreasing arrangements of that multiset under either
    strategy. *)
Theorem sort_dispatches_and_sorts (A : Type) (comp : A -> A -> bool)
  (Hcomp : strict_weak_order comp)
  (random_access linked : SequenceContainer A)
  (Hrandom : is_random_access random_access = true)
  (Hlinked : is_random_access linked = false)
  (Hmember : member_sort linked = Some (@std.list_sort A)) :
  (forall (C : SequenceContainer A) this,
      cec.sort C comp this
      = if is_random_access C then Some (std.sort comp this)
        else option_map (fun sort => sort comp this) (member_sort C))
  /\ (forall this,
      cec.sort random_access comp this = Some (std.sort comp this)
      /\ cec.sort linked comp this = Some (std.list_sort comp this))
  /\ (forall this this', Permutation this this' ->
      exists sorted sorted',
        cec.sort random_access comp this = Some sorted
        /\ cec.sort linked comp this' = Some sorted'
        /\ non_decreasing comp sorted /\ std.is_sorted comp sorted = true
        /\ non_decreasing comp sorted' /\ std.is_sorted comp sorted' = true
        /\ Permutation this sorted /\ Permutation this' sorted'
        /\ Permutation sorted sorted').
Proof.
  assert (Hdispatch : forall this,
             cec.sort random_access comp this = Some (std.sort comp this)
             /\ cec.sort linked comp this = Some (std.list_sort comp this)).
  { intros this. unfold cec.sort, cec.sort_helper.
    now rewrite Hrandom, Hlinked, Hmember. }
  split; [| split; [exact Hdispatch |]].
  { intros C this. unfold cec.sort, cec.sort_helper.
    destruct (is_random_access C); [reflexivity |].
    now destruct (member_sort C). }
  intros this this' Hperm.
  destruct (sort_spec Hcomp this) as [Hp Ho].
  destruct (list_sort_spec Hcomp this') as [Hp' Ho'].
  exists (std.sort comp this), (std.list_sort comp this').
  destruct (Hdispatch this) as [-> _]. destruct (Hdispatch this') as [_ ->].
  repeat split; auto using ordered_non_decreasing, ordered_is_sorted.
  now rewrite <- Hp, <- Hp'.
Qed.

Lemma ltb_strict_weak_order : strict_weak_order Nat.ltb.
Proof.
  split.
  - intros x. apply Nat.ltb_irrefl.
  - intros x y z Hxy Hyz. apply Nat.ltb_lt in Hxy, Hyz. apply Nat.ltb_lt. lia.
  - intros x y z Hxy Hyx Hyz Hzy.
    apply Nat.ltb_ge in Hxy, Hyx, Hyz, Hzy.
    split; apply Nat.ltb_ge; lia.
Qed.

(** The test of the library on [sort], with the numbers in a vector and
    in a list. *)
Lemma sort_dispatches_and_sorts_witness :
  cec.sort (std_vector nat) Nat.ltb [3; 2; 1; 15; 2; 15] = Some [1; 2; 2; 3; 15; 15]
  /\ cec.sort (std_list nat) Nat.ltb [3; 2; 1; 15; 2; 15] = Some [1; 2; 2; 3; 15; 15]
  /\ exists sorted sorted',
       cec.sort (std_vector nat) Nat.ltb [3; 2; 1; 15; 2; 15] = Some sorted
       /\ cec.sort (std_list nat) Nat.ltb [15; 2; 15; 1; 2; 3] = Some sorted'
       /\ Permutation sorted sorted'.
Proof.
  destruct (@sort_dispatches_and_sorts nat Nat.ltb ltb_strict_weak_order
              (std_vector nat) (std_list nat) eq_refl eq_refl eq_refl)
    as (_ & Hdispatch & Hsorted).
  split; [| split].
  - destruct (Hdispatch [3; 2; 1; 15; 2; 15]) as [-> _]. reflexivity.
  - destruct (Hdispatch [3; 2; 1; 15; 2; 15]) as [_ ->]. reflexivity.
  - destruct (Hsorted [3; 2; 1; 15; 2; 15] [15; 2; 15; 1; 2; 3])
      as (sorted & sorted' & H1 & H2 & _ & _ & _ & _ & _ & _ & H3).
    + apply (Permutation_rev [3; 2; 1; 15; 2; 15]).
    + exists sorted, sorted'. auto.
Defined.

(** ** Splitting a string *)

Section SplitFacts.

Implicit Types (re : regex.regex) (s : list ascii).

Lemma split_is_all_matches re s :
  extendable_basic_string.split re s = regex.all_matches re s.
Proof.
  unfold extendable_basic_string.split.
  generalize (regex.all_matches re s) as found.
  assert (H : forall found container : list (list ascii),
             fold_left (fun container m => std.emplace_end container m) found container
             = container ++ found).
  { induction found as [| m found IH]; intros container; simpl.
    - now rewrite app_nil_r.
    - rewrite IH. unfold std.emplace_end. now rewrite <- app_assoc. }
  intros found. apply H.
Qed.

(** The default regular expression on text that holds no white space. *)
Lemma non_space_run_all s :
  forallb (fun c => negb (regex.isspace c)) s = true ->
  regex.non_space_run s = length s.
Proof.
  induction s as [| c s IH]; simpl; [reflexivity |].
  intros H. apply andb_true_iff in H as [Hc Hs].
  apply negb_true_iff in Hc. rewrite Hc. now rewrite IH.
Qed.

Lemma S_plus_matches_word before c s :
  forallb (fun c => negb (regex.isspace c)) (c :: s) = true ->
  regex.regex_search regex.S_plus false false before (c :: s)
  = Some (0, length (c :: s)).
Proof.
  intros H. cbn [regex.regex_search].
  unfold regex.match_here, regex.S_plus.
  rewrite (non_space_run_all _ H).
  cbn [length]. rewrite seq_S, rev_app_distr. cbn [rev app List.filter].
  replace (1 + length s <=? S (length s)) with true
    by (symmetry; apply Nat.leb_le; lia).
  reflexivity.
Qed.

Lemma S_plus_nothing_at_end before :
  regex.regex_search regex.S_plus false false before [] = None.
Proof. reflexivity. Qed.

(** C9, as the code has it.  [split] returns the matches of its regular
    expression, not the text between them: when the expression has no
    match in the string the container is empty; when its only match is
    the whole string the container holds that string alone, which is
    what the default expression gives on a string of one or more
    characters none of which is white space, such as [word]. *)
Theorem split_collects_the_matches re s :
  (regex.regex_search re false false [] s = None ->
   extendable_basic_string.split re s = [])
  /\ (regex.regex_search re false false [] s = Some (0, length s) ->
      (s <> [] -> regex.regex_search re false false (rev s) [] = None) ->
      extendable_basic_string.split re s = [s])
  /\ (s <> [] -> forallb (fun c => negb (regex.isspace c)) s = true ->
      extendable_basic_string.split_default s = [s]).
Proof.
  assert (Hwhole : regex.regex_search re false false [] s = Some (0, length s) ->
                   (s <> [] -> regex.regex_search re false false (rev s) [] = None) ->
                   regex.all_matches re s = [s]).
  { intros Hfirst Hlast. unfold regex.all_matches. rewrite Hfirst.
    unfold regex.after_match, regex.str.
    cbn [Nat.add skipn]. rewrite firstn_all, skipn_all, app_nil_r.
    f_equal.
    replace (2 * length s + 2) with (S (S (2 * length s))) by lia.
    cbn [regex.matches_after].
    destruct s as [| c s]; [reflexivity |].
    cbn [length Nat.eqb]. rewrite Hlast by discriminate. reflexivity. }
  repeat split.
  - intros Hnone. rewrite split_is_all_matches.
    unfold regex.all_matches. now rewrite Hnone.
  - intros Hfirst Hlast. rewrite split_is_all_matches. now apply Hwhole.
  - intros Hs Hword. unfold extendable_basic_string.split_default.
    rewrite split_is_all_matches.
    destruct s as [| c s]; [congruence |].
    unfold regex.all_matches. rewrite (S_plus_matches_word [] _ _ Hword).
    unfold regex.after_match, regex.str.
    cbn [Nat.add skipn]. rewrite firstn_all, skipn_all, app_nil_r.
    reflexivity.
Qed.

End SplitFacts.

(** On the string [word] the default expression matches the whole
    string, and the container is that string alone. *)
Lemma split_collects_the_matches_witness :
  extendable_basic_string.split_default (list_ascii_of_string "word")
  = [list_ascii_of_string "word"].
Proof.
  apply (split_collects_the_matches regex.S_plus (list_ascii_of_string "word"));
    [discriminate | reflexivity].
Defined.

(** C9, as the claim has it, fails on the string [word] split at a
    comma: the expression has no match in the string, and the container
    is empty, not the string alone. *)
Lemma split_without_a_match_is_empty :
  regex.regex_search (regex.literal ",") false false []
    (list_ascii_of_string "word") = None
  /\ extendable_basic_string.split (regex.literal ",") (list_ascii_of_string "word")
     = []
  /\ extendable_basic_string.split (regex.literal ",") (list_ascii_of_string "word")
     <> [list_ascii_of_string "word"].
Proof.
  repeat split; try reflexivity. discriminate.
Qed.

(** The tests of the library on [split]. *)
Example split_test :
  List.map string_of_list_ascii
    (extendable_basic_string.split_default (list_ascii_of_string "hello world"))
  = ["hello"%string; "world"%string]
  /\ List.map string_of_list_ascii
       (extendable_basic_string.split_default
          (list_ascii_of_string "A longer message, with more words"))
     = ["A"%string; "longer"%string; "message,"%string; "with"%string;
        "more"%string; "words"%string].
Proof. split; reflexivity. Qed.

(** * Further properties *)

(** ** Searching, counting and erasing *)

Section CountingFacts.

Context {A : Type}.

Implicit Types (this other : list A) (p q : A -> bool).

Lemma find_if_not_at_end p this :
  std.is_end (std.find_if_not p this) = forallb p this.
Proof.
  induction this as [| x this IH]; simpl; [reflexivity |].
  destruct (p x); simpl; auto.
Qed.

Lemma contains_spec (eqb : A -> A -> bool) (value : A) this :
  cec.contains eqb value this = existsb (fun x => eqb x value) this.
Proof.
  unfold cec.contains, std.find, std.find_if, std.begin.
  rewrite find_if_not_at_end.
  induction this as [| x this IH]; simpl; [reflexivity |].
  rewrite <- IH. now destruct (eqb x value), (forallb _ this).
Qed.

Lemma count_if_spec p this :
  cec.count_if p this = Z.of_nat (length (List.filter p this)).
Proof.
  unfold cec.count_if, std.count_if, std.begin.
  rewrite count_if_loop. lia.
Qed.

Lemma count_spec (eqb : A -> A -> bool) (value : A) this :
  cec.count eqb value this
  = Z.of_nat (length (List.filter (fun x => eqb x value) this)).
Proof.
  apply (count_if_spec (fun x => eqb x value)).
Qed.

Lemma filter_nothing p this :
  existsb p this = false -> List.filter p this = [].
Proof.
  induction this as [| x this IH]; simpl; [reflexivity |].
  destruct (p x); simpl; [discriminate | exact IH].
Qed.

Lemma filter_something p this :
  existsb p this = true -> 0 < length (List.filter p this).
Proof.
  induction this as [| x this IH]; simpl; [discriminate |].
  destruct (p x); simpl; [lia | exact IH].
Qed.

Lemma length_filter_split p this :
  length (List.filter p this) + length (List.filter (fun x => negb (p x)) this)
  = length this.
Proof.
  induction this as [| x this IH]; simpl; [reflexivity |].
  destruct (p x); simpl; lia.
Qed.

Lemma filter_filter p q this :
  List.filter q (List.filter p this) = List.filter (fun x => p x && q x) this.
Proof.
  induction this as [| x this IH]; simpl; [reflexivity |].
  destruct (p x); simpl; [destruct (q x) |]; now rewrite IH.
Qed.

Lemma filter_permutation p this :
  Permutation this (List.filter p this ++ List.filter (fun x => negb (p x)) this).
Proof.
  induction this as [| x this IH]; simpl; [reflexivity |].
  destruct (p x); simpl.
  - now apply perm_skip.
  - rewrite IH at 1. apply Permutation_middle.
Qed.


(** X2.  [erase_all(value)] returns, and what it returns holds no
    element equal to [value]: [contains(value)] is false on it and
    [count(value)] is zero.  Its size is the size of the receiver less
    the count, and it is the receiver itself exactly when the receiver
    did not contain [value]. *)
Theorem erase_all_leaves_no_equal_element (eqb : A -> A -> bool) (value : A) this :
  exists kept,
    cec.erase_all eqb (std.object value) this = Returns kept
    /\ cec.contains eqb value kept = false
    /\ cec.count eqb value kept = 0%Z
    /\ Z.of_nat (length kept)
       = (Z.of_nat (length this) - cec.count eqb value this)%Z
    /\ (kept = this <-> cec.contains eqb value this = false).
Proof.
  exists (List.filter (fun x => negb (eqb x value)) this).
  rewrite erase_all_spec, !contains_spec, !count_spec.
  pose proof (length_filter_split (fun x => eqb x value) this) as Hsplit.
  cbv beta in Hsplit.
  assert (Hnone : existsb (fun x => eqb x value)
                    (List.filter (fun x => negb (eqb x value)) this) = false).
  { destruct (existsb _ _) eqn:E; [| reflexivity].
    apply existsb_exists in E as (x & Hin & Hx).
    apply filter_In in Hin as [_ Hne]. rewrite Hx in Hne. discriminate. }
  split; [reflexivity |]. split; [exact Hnone |].
  split; [now rewrite filter_nothing |]. split; [lia |]. split.
  - intros Heq. destruct (existsb (fun x => eqb x value) this) eqn:E; [| reflexivity].
    apply filter_something in E. rewrite <- Heq in Hsplit at 3. lia.
  - intros Hno. apply filter_all.
    apply forallb_forall. intros x Hin.
    destruct (eqb x value) eqn:Hx; [| reflexivity].
    assert (existsb (fun x => eqb x value) this = true)
      by (apply existsb_exists; eauto).
    congruence.
Qed.

(** X3.  The elements that satisfy a predicate and those that do not
    add up to the size; [count_if] adds over [concat]; and after
    [erase_if(p)] no element satisfies [p], the size having dropped by
    [count_if(p)]. *)
Theorem count_if_splits_the_size p this other :
  (cec.count_if p this + cec.count_if (fun x => negb (p x)) this
   = Z.of_nat (length this))%Z
  /\ (0 <= cec.count_if p this <= Z.of_nat (length this))%Z
  /\ (cec.count_if p (cec.concat this other)
      = cec.count_if p this + cec.count_if p other)%Z
  /\ exists kept,
       cec.erase_if p this = Returns kept
       /\ cec.count_if p kept = 0%Z
       /\ Z.of_nat (length kept)
          = (Z.of_nat (length this) - cec.count_if p this)%Z.
Proof.
  rewrite !count_if_spec.
  pose proof (length_filter_split p this) as Hsplit.
  split; [lia |]. split; [lia |]. split.
  - unfold cec.concat, cec.extend, std.insert_end.
    rewrite filter_app, length_app. lia.
  - exists (List.filter (fun x => negb (p x)) this).
    rewrite erase_if_spec, count_if_spec, filter_filter.
    split; [reflexivity |]. split; [| lia].
    rewrite filter_nothing; [reflexivity |].
    destruct (existsb _ _) eqn:E; [| reflexivity].
    apply existsb_exists in E as (x & _ & Hx). now destruct (p x).
Qed.

(** X4.  Filtering twice by one predicate changes nothing more,
    filtering by two predicates in either order keeps the elements that
    satisfy both, [filter] distributes over [concat], an element is kept
    exactly when it satisfies the predicate, and [filter(p)] with
    [erase_if(p)] split the receiver: together they hold each of its
    elements once. *)
Theorem filter_composes p q this other :
  cec.filter p (cec.filter p this) = cec.filter p this
  /\ cec.filter q (cec.filter p this) = cec.filter (fun x => p x && q x) this
  /\ cec.filter q (cec.filter p this) = cec.filter p (cec.filter q this)
  /\ cec.filter p (cec.concat this other)
     = cec.concat (cec.filter p this) (cec.filter p other)
  /\ (forall x, In x (cec.filter p this) <-> In x this /\ p x = true)
  /\ exists removed,
       cec.erase_if (fun x => negb (p x)) this = Returns (cec.filter p this)
       /\ cec.erase_if p this = Returns removed
       /\ Permutation this (cec.filter p this ++ removed).
Proof.
  rewrite !filter_spec.
  split; [| split; [| split; [| split; [| split]]]].
  - rewrite filter_filter. apply filter_ext. intros x. now destruct (p x).
  - apply filter_filter.
  - rewrite !filter_filter. apply filter_ext. intros x. apply andb_comm.
  - unfold cec.concat, cec.extend, std.insert_end. apply filter_app.
  - intros x. apply filter_In.
  - exists (List.filter (fun x => negb (p x)) this).
    rewrite !erase_if_spec. split; [| split; [reflexivity |]].
    + f_equal. apply filter_ext. intros x. apply negb_involutive.
    + apply filter_permutation.
Qed.

End CountingFacts.

(** ** Concatenating, flattening and reducing *)

Section ConcatFacts.

Context {A : Type}.

Implicit Types (this b c : list A).

Lemma concat_spec this b : cec.concat this b = this ++ b.
Proof. reflexivity. Qed.

Lemma in_range_true (num : Z) this :
  (0 <= num <= Z.of_nat (length this))%Z -> in_range num this = true.
Proof.
  intros [H1 H2]. unfold in_range.
  apply andb_true_iff. split; now apply Z.leb_le.
Qed.

Lemma in_range_false (num : Z) this :
  (num < 0 \/ Z.of_nat (length this) < num)%Z -> in_range num this = false.
Proof.
  intros H. unfold in_range. apply andb_false_iff.
  destruct H; [left | right]; apply Z.leb_gt; lia.
Qed.

Lemma flatten_loop (this : list (list A)) : forall flattened,
  fold_left (fun flattened inner => std.insert_end flattened inner) this flattened
  = flattened ++ List.concat this.
Proof.
  induction this as [| inner this IH]; intros flattened; simpl.
  - now rewrite app_nil_r.
  - rewrite IH. unfold std.insert_end. now rewrite <- app_assoc.
Qed.

Lemma flatten_spec (this : list (list A)) : cec.flatten this = List.concat this.
Proof.
  unfold cec.flatten. now rewrite flatten_loop.
Qed.

(** X5.  [concat] is associative in the order of the elements, the
    empty container is neutral on both sides, the sizes add, and the
    receiver is the initial segment of the result: taking as many
    elements as the receiver has gives the receiver back. *)
Theorem concat_is_associative this b c :
  cec.concat (cec.concat this b) c = cec.concat this (cec.concat b c)
  /\ cec.concat this [] = this
  /\ cec.concat [] this = this
  /\ length (cec.concat this b) = length this + length b
  /\ cec.take (Z.of_nat (length this)) (cec.concat this b) = Returns this
  /\ cec.concat_rvalue (cec.concat_rvalue this b) c
     = cec.concat this (cec.concat b c).
Proof.
  unfold cec.concat_rvalue. rewrite !concat_spec.
  split; [symmetry; apply app_assoc |].
  split; [apply app_nil_r |]. split; [reflexivity |].
  split; [apply length_app |]. split; [| symmetry; apply app_assoc].
  rewrite take_spec, in_range_true by (rewrite length_app; lia).
  rewrite Nat2Z.id. f_equal. apply firstn_length_app.
Qed.

(** X6.  [flatten] puts the elements of the inner containers one after
    the other, outer order first: the overload that moves the elements
    out returns the same, the size is the sum of the inner sizes, an
    element is in the result exactly when it is in an inner container,
    [flatten] distributes over [concat], and it undoes wrapping every
    element in a container of its own. *)
Theorem flatten_joins_the_inner_containers (this other : list (list A))
  (elements : list A) :
  cec.flatten this = List.concat this
  /\ cec.flatten_rvalue this = cec.flatten this
  /\ length (cec.flatten this) = list_sum (List.map (@length A) this)
  /\ (forall x, In x (cec.flatten this) <-> exists inner, In inner this /\ In x inner)
  /\ cec.flatten (cec.concat this other)
     = cec.concat (cec.flatten this) (cec.flatten other)
  /\ cec.flatten (cec.map (fun x => [x]) elements) = elements.
Proof.
  split; [apply flatten_spec |]. split; [reflexivity |].
  rewrite !flatten_spec, map_spec, !concat_spec.
  split; [apply length_concat |]. split; [| split].
  - intros x. rewrite in_concat. split; intros (inner & H1 & H2); eauto.
  - apply concat_app.
  - induction elements as [| x elements IH]; simpl; [reflexivity |].
    now rewrite IH.
Qed.

(** The nested containers of the test of the library on [flatten]. *)
Example flatten_test :
  cec.flatten [[1; 2; 3]; [4; 5; 6]] = [1; 2; 3; 4; 5; 6]
  /\ cec.flatten [[1; 2]; [3]; [4; 5; 6]] = [1; 2; 3; 4; 5; 6].
Proof. split; reflexivity. Qed.

End ConcatFacts.

Section ReduceFacts.

Context {A : Type}.

Implicit Types (this other : list A).

Lemma reduce_nonempty (g : A -> A -> A) (x : A) (rest : list A) :
  cec.reduce g (x :: rest) = Returns (fold_left g rest x).
Proof.
  unfold cec.reduce, std.next, std.begin.
  assert (H : (1 <=? Z.of_nat (length (x :: rest)))%Z = true)
    by (apply Z.leb_le; simpl length; lia).
  rewrite H. reflexivity.
Qed.

Lemma fold_left_associative (f : A -> A -> A) :
  (forall a b c, f (f a b) c = f a (f b c)) ->
  forall rest y r, fold_left f rest (f r y) = f r (fold_left f rest y).
Proof.
  intros Hassoc. induction rest as [| z rest IH]; intros y r; simpl.
  - reflexivity.
  - now rewrite Hassoc, IH.
Qed.

(** X7.  [reduce] with a seed returns the seed on an empty container,
    reduces a concatenation by reducing its second part from the
    result of the first, gives the same on an rvalue receiver, and is
    what [reduce] without a seed computes from the first element on.
    Counting with it gives the size, and adding up the sizes of inner
    containers gives the size of their [flatten]. *)
Theorem reduce_with_seed_composes {Init : Type} (f : Init -> A -> Init)
  (g : A -> A -> A) (init : Init) this other (nested : list (list A)) :
  cec.reduce_init f init [] = init
  /\ cec.reduce_init f init (cec.concat this other)
     = cec.reduce_init f (cec.reduce_init f init this) other
  /\ cec.reduce_init_rvalue f init this = cec.reduce_init f init this
  /\ (forall x rest, cec.reduce g (x :: rest) = Returns (cec.reduce_init g x rest))
  /\ cec.reduce_init (fun n _ => S n) 0 this = length this
  /\ cec.reduce_init (fun n inner => n + length inner) 0 nested
     = length (cec.flatten nested).
Proof.
  unfold cec.reduce_init, cec.reduce_init_rvalue, std.accumulate, std.begin.
  split; [reflexivity |]. split; [apply fold_left_app |].
  split; [reflexivity |]. split; [| split].
  - intros x rest. apply reduce_nonempty.
  - rewrite <- (Nat.add_0_l (length this)). generalize 0.
    induction this as [| x this IH]; intros n; simpl; [lia |].
    rewrite IH. lia.
  - rewrite flatten_spec, length_concat.
    rewrite <- (Nat.add_0_l (list_sum _)). generalize 0.
    induction nested as [| inner nested IH]; intros n; simpl; [lia |].
    rewrite IH. lia.
Qed.

(** X8.  For an associative [f], as the documentation of [reduce] asks,
    reducing the concatenation of two non-empty containers is [f] of
    their two reductions. *)
Theorem reduce_of_concat (f : A -> A -> A)
  (Hassoc : forall a b c, f (f a b) c = f a (f b c))
  this other (Hthis : this <> []) (Hother : other <> []) :
  exists r1 r2,
    cec.reduce f this = Returns r1
    /\ cec.reduce f other = Returns r2
    /\ cec.reduce f (cec.concat this other) = Returns (f r1 r2).
Proof.
  destruct this as [| x this]; [congruence |].
  destruct other as [| y other]; [congruence |].
  exists (fold_left f this x), (fold_left f other y).
  rewrite !reduce_nonempty. split; [reflexivity |].
  split; [reflexivity |].
  rewrite concat_spec. simpl. rewrite reduce_nonempty.
  f_equal. rewrite fold_left_app. simpl.
  now apply fold_left_associative.
Qed.

End ReduceFacts.

(** The strings of the test of the library on [reduce], joined by
    appending: the reduction of the whole is the two halves appended. *)
Lemma reduce_of_concat_witness :
  exists r1 r2,
    cec.reduce String.append ["Hel"%string; "lo"%string] = Returns r1
    /\ cec.reduce String.append [", wo"%string; "rld"%string] = Returns r2
    /\ cec.reduce String.append
         (cec.concat ["Hel"%string; "lo"%string] [", wo"%string; "rld"%string])
       = Returns (String.append r1 r2).
Proof.
  apply (@reduce_of_concat string String.append).
  - intros a b c. induction a as [| ch a IH]; simpl; [reflexivity | now rewrite IH].
  - discriminate.
  - discriminate.
Defined.


(** ** Mapping, zipping and unzipping *)

Section UnzipFacts.

Context {A B : Type}.

Lemma unzip_loop (this : list (A * B)) : forall unzipped,
  fold_left
    (fun unzipped item =>
       (std.emplace_end (fst unzipped) (fst item),
        std.emplace_end (snd unzipped) (snd item)))
    this unzipped
  = (fst unzipped ++ List.map fst this, snd unzipped ++ List.map snd this).
Proof.
  induction this as [| item this IH]; intros [firsts seconds]; simpl.
  - now rewrite !app_nil_r.
  - rewrite IH. simpl. unfold std.emplace_end. now rewrite <- !app_assoc.
Qed.

Lemma unzip_spec (this : list (A * B)) :
  cec.unzip this = (List.map fst this, List.map snd this).
Proof.
  unfold cec.unzip. now rewrite unzip_loop.
Qed.

Lemma zip_spec (this : list A) (other : list B) :
  cec.zip this other = Returns (combine this other).
Proof.
  unfold cec.zip. now rewrite zip_loop_spec.
Qed.

Lemma map_fst_combine (this : list A) : forall other : list B,
  List.map fst (combine this other)
  = firstn (Nat.min (length this) (length other)) this.
Proof.
  induction this as [| a this IH]; intros [| b other]; simpl; auto.
  now rewrite IH.
Qed.

Lemma map_snd_combine (this : list A) : forall other : list B,
  List.map snd (combine this other)
  = firstn (Nat.min (length this) (length other)) other.
Proof.
  induction this as [| a this IH]; intros [| b other]; simpl; auto.
  now rewrite IH.
Qed.

(** X9.  [unzip] and [zip] undo each other.  [unzip] returns the first
    components and the second components, each as long as the receiver,
    and zipping the two gives the receiver back; unzipping [zip(other)]
    gives the receiver and [other], each cut to the length of the
    shorter. *)
Theorem unzip_and_zip_are_inverse (pairs : list (A * B))
  (this : list A) (other : list B) :
  cec.unzip pairs = (List.map fst pairs, List.map snd pairs)
  /\ length (fst (cec.unzip pairs)) = length pairs
  /\ length (snd (cec.unzip pairs)) = length pairs
  /\ cec.zip (fst (cec.unzip pairs)) (snd (cec.unzip pairs)) = Returns pairs
  /\ exists zipped,
       cec.zip this other = Returns zipped
       /\ cec.unzip zipped
          = (firstn (Nat.min (length this) (length other)) this,
             firstn (Nat.min (length this) (length other)) other).
Proof.
  rewrite unzip_spec. simpl.
  split; [reflexivity |]. split; [apply length_map |].
  split; [apply length_map |]. split.
  - rewrite zip_spec. f_equal.
    induction pairs as [| [a b] pairs IH]; simpl; [reflexivity | now rewrite IH].
  - exists (combine this other). rewrite zip_spec, unzip_spec.
    now rewrite map_fst_combine, map_snd_combine.
Qed.

(** X10.  Zipping two containers of one size and unzipping the result
    gives the two containers back. *)
Theorem unzip_of_zip_of_equal_sizes (this : list A) (other : list B)
  (Hsize : length this = length other) :
  exists zipped,
    cec.zip this other = Returns zipped
    /\ length zipped = length this
    /\ cec.unzip zipped = (this, other).
Proof.
  exists (combine this other). rewrite zip_spec, unzip_spec.
  rewrite map_fst_combine, map_snd_combine, length_combine, <- Hsize.
  rewrite Nat.min_id. rewrite firstn_all, Hsize, firstn_all. auto.
Qed.

End UnzipFacts.

(** The containers of the test of the library on [unzip]. *)
Lemma unzip_of_zip_of_equal_sizes_witness :
  exists zipped,
    cec.zip ["a"%char; "b"%char; "c"%char] ["apple"%string; "bear"%string; "cat"%string]
    = Returns zipped
    /\ length zipped = 3
    /\ cec.unzip zipped
       = (["a"%char; "b"%char; "c"%char], ["apple"%string; "bear"%string; "cat"%string]).
Proof.
  apply (@unzip_of_zip_of_equal_sizes ascii string). reflexivity.
Defined.

Section MapFacts.

Context {A B C : Type}.

(** X11.  [map] keeps the size and the order: two maps in a row are the
    map of the composed function, [map] distributes over [concat],
    taking from the mapped container is mapping what was taken (and is
    undefined for the same counts), counting in the mapped container is
    counting with the predicate composed with the function, and
    [transform] stores in place what [map] returns. *)
Theorem map_composes (f : A -> B) (g : B -> C) (h : A -> A) (p : B -> bool)
  (num : Z) (this other : list A) :
  length (cec.map f this) = length this
  /\ cec.map g (cec.map f this) = cec.map (fun x => g (f x)) this
  /\ cec.map f (cec.concat this other)
     = cec.concat (cec.map f this) (cec.map f other)
  /\ cec.take num (cec.map f this)
     = (taken <- cec.take num this ;; Returns (cec.map f taken))
  /\ cec.count_if p (cec.map f this) = cec.count_if (fun x => p (f x)) this
  /\ cec.transform h this = cec.map h this
  /\ (forall i, nth_error (cec.map f this) i = option_map f (nth_error this i)).
Proof.
  rewrite !map_spec, !concat_spec, ?map_spec.
  split; [apply length_map |]. split; [apply map_map |].
  split; [apply map_app |]. split; [| split; [| split]].
  - rewrite !take_spec. unfold in_range. rewrite length_map.
    destruct ((0 <=? num)%Z && (num <=? Z.of_nat (length this))%Z); simpl;
      [| reflexivity].
    now rewrite map_spec, firstn_map.
  - rewrite !count_if_spec. f_equal.
    induction this as [| x this IH]; simpl; [reflexivity |].
    destruct (p (f x)); simpl; now rewrite IH.
  - unfold cec.transform. apply transform_spec.
  - intros i. apply nth_error_map.
Qed.

End MapFacts.

(** The test of the library on [map] followed by [take]. *)
Example map_take_test :
  cec.take 2 (cec.map (fun _ : ascii => 1) (list_ascii_of_string "abcd"))
  = Returns [1; 1].
Proof. reflexivity. Qed.

(** ** Taking *)

Section TakeFacts.

Context {A : Type}.

Implicit Types (this : list A) (p : A -> bool).

(** X12.  The bounds of [take]: taking no element gives the empty
    container, taking as many as there are gives the whole container,
    and the call is undefined exactly for a negative count and for a
    count above the size, on a kept and on an rvalue receiver alike. *)
Theorem take_at_its_bounds (num : Z) this :
  cec.take 0 this = Returns []
  /\ cec.take (Z.of_nat (length this)) this = Returns this
  /\ (cec.take num this = Undefined
      <-> (num < 0 \/ Z.of_nat (length this) < num)%Z)
  /\ (cec.take_rvalue num this = Undefined
      <-> (num < 0 \/ Z.of_nat (length this) < num)%Z).
Proof.
  rewrite take_rvalue_spec, !take_spec.
  rewrite !in_range_true by lia. rewrite Nat2Z.id, firstn_all. simpl.
  split; [reflexivity |]. split; [reflexivity |].
  assert (H : (if in_range num this
               then Returns (firstn (Z.to_nat num) this) else Undefined)
              = Undefined
              <-> (num < 0 \/ Z.of_nat (length this) < num)%Z).
  { split.
    - destruct (in_range num this) eqn:E; [discriminate |]. intros _.
      unfold in_range in E. apply andb_false_iff in E.
      destruct E as [E | E]; apply Z.leb_gt in E; lia.
    - intros H. now rewrite in_range_false. }
  split; exact H.
Qed.

(** X13.  Within its bounds, [take(num)] returns [num] elements, the
    [i]-th of which is the [i]-th of the receiver; the receiver is what
    was taken followed by the elements left, and taking fewer from the
    result is taking them from the receiver. *)
Theorem take_within_its_bounds (num : Z) this
  (Hnum : (0 <= num <= Z.of_nat (length this))%Z) :
  exists taken,
    cec.take num this = Returns taken
    /\ Z.of_nat (length taken) = num
    /\ (forall i, i < length taken -> nth_error taken i = nth_error this i)
    /\ cec.concat taken (skipn (Z.to_nat num) this) = this
    /\ forall fewer, (0 <= fewer <= num)%Z -> cec.take fewer taken = cec.take fewer this.
Proof.
  exists (firstn (Z.to_nat num) this).
  rewrite take_spec, in_range_true by exact Hnum.
  assert (Hlen : length (firstn (Z.to_nat num) this) = Z.to_nat num)
    by (apply firstn_length_le; lia).
  split; [reflexivity |]. split; [lia |]. split; [| split].
  - intros i Hi. rewrite nth_error_firstn.
    assert (E : (i <? Z.to_nat num) = true) by (apply Nat.ltb_lt; lia).
    now rewrite E.
  - apply firstn_skipn.
  - intros fewer Hfewer. rewrite !take_spec.
    rewrite !in_range_true by lia.
    f_equal. rewrite firstn_firstn. f_equal. lia.
Qed.

Lemma forallb_longest_prefix p this : forallb p (longest_prefix p this) = true.
Proof.
  induction this as [| x this IH]; simpl; [reflexivity |].
  destruct (p x) eqn:Hx; simpl; [now rewrite Hx |reflexivity].
Qed.

Lemma longest_prefix_split p this :
  exists rest,
    this = longest_prefix p this ++ rest
    /\ match rest with [] => True | x :: _ => p x = false end.
Proof.
  induction this as [| x this (rest & IH1 & IH2)]; simpl.
  - exists []. auto.
  - destruct (p x) eqn:Hx.
    + exists rest. simpl. now rewrite <- IH1.
    + exists (x :: this). auto.
Qed.

Lemma longest_prefix_all p this :
  forallb p this = true -> longest_prefix p this = this.
Proof.
  induction this as [| x this IH]; simpl; [reflexivity |].
  intros H. apply andb_true_iff in H as [Hx Hthis].
  now rewrite Hx, IH.
Qed.

(** X14.  [take_while(p)] returns, and stops at the first element that
    does not satisfy [p]: every element it returns satisfies [p], the
    element of the receiver that follows, if any, does not; filtering
    the result by [p] or taking from it again changes nothing; the
    result is the whole receiver exactly when every element satisfies
    [p]; and it is [take] of its own size. *)
Theorem take_while_stops_at_the_first_failure p this :
  exists taken rest,
    cec.take_while p this = Returns taken
    /\ this = taken ++ rest
    /\ forallb p taken = true
    /\ match rest with [] => True | x :: _ => p x = false end
    /\ cec.filter p taken = taken
    /\ cec.take_while p taken = Returns taken
    /\ (taken = this <-> forallb p this = true)
    /\ cec.take (Z.of_nat (length taken)) this = Returns taken.
Proof.
  destruct (longest_prefix_split p this) as (rest & Hsplit & Hrest).
  pose proof (forallb_longest_prefix p this) as Hall.
  exists (longest_prefix p this), rest.
  rewrite !take_while_spec, filter_spec.
  split; [reflexivity |]. split; [exact Hsplit |]. split; [exact Hall |].
  split; [exact Hrest |]. split; [now apply filter_all |].
  split; [now rewrite longest_prefix_all |]. split.
  - split; [intros <-; exact Hall | apply longest_prefix_all].
  - assert (Hlen : length this = length (longest_prefix p this) + length rest)
      by (rewrite <- length_app; now rewrite <- Hsplit).
    assert (Hfirst : firstn (length (longest_prefix p this)) this
                     = longest_prefix p this).
    { transitivity (firstn (length (longest_prefix p this))
                      (longest_prefix p this ++ rest)).
      - now rewrite <- Hsplit.
      - apply firstn_length_app. }
    rewrite take_spec, in_range_true, Nat2Z.id by lia.
    now rewrite Hfirst.
Qed.

End TakeFacts.

(** The vector of the test of the library on [take]. *)
Lemma take_within_its_bounds_witness :
  exists taken,
    cec.take 2 (list_ascii_of_string "abcd") = Returns taken
    /\ Z.of_nat (length taken) = 2%Z
    /\ cec.concat taken (list_ascii_of_string "cd") = list_ascii_of_string "abcd".
Proof.
  destruct (@take_within_its_bounds ascii 2 (list_ascii_of_string "abcd"))
    as (taken & Htake & Hlen & _ & Hconcat & _).
  - simpl. lia.
  - exists taken. auto.
Defined.

(** ** Sorting what is sorted, and what sorting keeps *)

Section SortedInputFacts.

Context {A : Type}.

Variable comp : A -> A -> bool.

Implicit Types (l : list A) (tmp : list (list A)).

Lemma ordered_app l1 : forall l2,
  ordered comp (l1 ++ l2)
  -> ordered comp l1 /\ ordered comp l2
     /\ forall x y, In x l1 -> In y l2 -> comp y x = false.
Proof.
  induction l1 as [| a l1 IH]; intros l2; simpl.
  - intros H. repeat split; auto. intros x y [].
  - intros [Ha H]. destruct (IH l2 H) as (H1 & H2 & Hcross).
    apply Forall_app in Ha as [Ha1 Ha2].
    repeat split; auto.
    intros x y [<- | Hx] Hy; [| now apply Hcross].
    rewrite Forall_forall in Ha2. now apply Ha2.
Qed.

Lemma merge_on_ordered l1 : forall l2,
  (forall x y, In x l1 -> In y l2 -> comp y x = false) ->
  std.merge comp l1 l2 = l1 ++ l2.
Proof.
  induction l1 as [| x l1 IH]; intros l2 Hcross.
  - apply merge_nil_l.
  - destruct l2 as [| y l2]; [now rewrite merge_nil_r, app_nil_r |].
    rewrite merge_cons, (Hcross x y) by (simpl; auto).
    simpl. f_equal. apply IH. intros a b Ha Hb. apply Hcross; simpl; auto.
Qed.

Lemma concat_rev_cons counter tmp :
  List.concat (rev (counter :: tmp)) = List.concat (rev tmp) ++ counter.
Proof.
  simpl. rewrite concat_app. simpl. now rewrite app_nil_r.
Qed.

Lemma add_carry_on_ordered tmp : forall carry,
  ordered comp (List.concat (rev tmp) ++ carry) ->
  List.concat (rev (std.add_carry comp carry tmp)) = List.concat (rev tmp) ++ carry.
Proof.
  induction tmp as [| counter tmp IH]; intros carry H.
  - simpl. now rewrite app_nil_r.
  - rewrite concat_rev_cons in H. cbn [std.add_carry].
    destruct counter as [| z counter].
    + now rewrite !concat_rev_cons, app_nil_r.
    + rewrite <- app_assoc in H.
      assert (Hmerge : std.merge comp (z :: counter) carry = (z :: counter) ++ carry).
      { apply merge_on_ordered.
        apply ordered_app in H as (_ & H & _).
        now apply ordered_app in H as (_ & _ & Hcross). }
      rewrite Hmerge, !concat_rev_cons, app_nil_r, IH by exact H.
      now rewrite app_assoc.
Qed.

Lemma fill_counters_on_ordered l : forall tmp,
  ordered comp (List.concat (rev tmp) ++ l) ->
  List.concat (rev (std.fill_counters comp l tmp)) = List.concat (rev tmp) ++ l.
Proof.
  induction l as [| x l IH]; intros tmp H; simpl.
  - now rewrite app_nil_r.
  - assert (Hcarry : List.concat (rev (std.add_carry comp [x] tmp))
                     = List.concat (rev tmp) ++ [x]).
    { apply add_carry_on_ordered.
      change (x :: l) with ([x] ++ l) in H. rewrite app_assoc in H.
      now apply ordered_app in H as (H & _). }
    rewrite IH; rewrite Hcarry, <- app_assoc; [reflexivity | exact H].
Qed.

Lemma merge_counters_on_ordered tmp : forall below,
  ordered comp (List.concat (rev tmp) ++ below) ->
  std.merge_counters comp below tmp = List.concat (rev tmp) ++ below.
Proof.
  induction tmp as [| counter tmp IH]; intros below H.
  - reflexivity.
  - rewrite concat_rev_cons, <- app_assoc in H. cbn [std.merge_counters].
    assert (Hmerge : std.merge comp counter below = counter ++ below).
    { apply merge_on_ordered.
      apply ordered_app in H as (_ & H & _).
      now apply ordered_app in H as (_ & _ & Hcross). }
    rewrite Hmerge, IH, concat_rev_cons by exact H.
    now rewrite app_assoc.
Qed.

Lemma list_sort_on_ordered l : ordered comp l -> std.list_sort comp l = l.
Proof.
  intros H. unfold std.list_sort.
  assert (Hfill : List.concat (rev (std.fill_counters comp l [])) = l)
    by (now rewrite fill_counters_on_ordered).
  rewrite merge_counters_on_ordered; rewrite Hfill, app_nil_r; auto.
Qed.

Hypothesis comp_order : strict_weak_order comp.

Lemma is_sorted_ordered l : std.is_sorted comp l = true -> ordered comp l.
Proof.
  induction l as [| x l IH]; [intros _; exact I |].
  cbn [std.is_sorted]. destruct l as [| y l].
  - intros _. split; [constructor | exact I].
  - intros H. apply andb_true_iff in H as [Hyx Hl].
    apply negb_true_iff in Hyx. specialize (IH Hl).
    split; [| exact IH]. constructor; [exact Hyx |].
    destruct IH as [Hy _]. rewrite Forall_forall in *.
    intros z Hz. apply (comp_negatively_transitive comp_order) with (y := y); auto.
Qed.

(** Where no two distinct elements are equivalent, given elements have
    one sorted arrangement. *)
Lemma ordered_permutation_unique l : forall l',
  (forall x y, In x l -> In y l ->
               comp x y = false -> comp y x = false -> x = y) ->
  Permutation l l' -> ordered comp l -> ordered comp l' -> l = l'.
Proof.
  induction l as [| x l IH]; intros l' Hdistinct Hperm Hl Hl'.
  - now apply Permutation_nil in Hperm.
  - destruct l' as [| y l'];
      [apply Permutation_sym, Permutation_nil in Hperm; discriminate |].
    destruct Hl as [Hx Hl]. destruct Hl' as [Hy Hl'].
    assert (Hxy : x = y).
    { assert (Hyin : In y (x :: l))
        by (apply Permutation_in with (l := y :: l');
            [now apply Permutation_sym | now left]).
      assert (Hxin : In x (y :: l'))
        by (apply Permutation_in with (l := x :: l); [assumption | now left]).
      destruct Hyin as [Heq | Hyin]; [exact Heq |].
      destruct Hxin as [Heq | Hxin]; [now symmetry |].
      rewrite Forall_forall in Hx, Hy.
      apply Hdistinct; [now left | now right | now apply Hy | now apply Hx]. }
    subst y. f_equal. apply IH; auto.
    + intros a b Ha Hb. apply Hdistinct; now right.
    + now apply Permutation_cons_inv with (a := x).
Qed.

(** What the standard asks of a range sort, a sorted arrangement of the
    elements it was given, fixes its result on a sorted range in which
    no two distinct elements are equivalent: the range itself. *)
Lemma conforming_sort_on_ordered (range_sort : list A -> list A) l :
  Permutation l (range_sort l) /\ ordered comp (range_sort l) ->
  (forall x y, In x l -> In y l ->
               comp x y = false -> comp y x = false -> x = y) ->
  ordered comp l -> range_sort l = l.
Proof.
  intros [Hperm Hsorted] Hdistinct Hl. symmetry.
  now apply ordered_permutation_unique.
Qed.

End SortedInputFacts.

Section SortKeepsFacts.

Context {A : Type}.

Lemma permutation_length_filter (p : A -> bool) (l l' : list A) :
  Permutation l l' -> length (List.filter p l) = length (List.filter p l').
Proof.
  induction 1 as [| x l l' _ IH | x y l | l l' l'' _ IH1 _ IH2]; simpl.
  - reflexivity.
  - destruct (p x); simpl; now rewrite IH.
  - destruct (p x), (p y); reflexivity.
  - now rewrite IH1.
Qed.

Lemma permutation_existsb (p : A -> bool) (l l' : list A) :
  Permutation l l' -> existsb p l = existsb p l'.
Proof.
  intros H. destruct (existsb p l') eqn:E.
  - apply existsb_exists in E as (x & Hin & Hx). apply existsb_exists.
    exists x. split; [| exact Hx]. now apply Permutation_in with (l := l').
  - destruct (existsb p l) eqn:E'; [| reflexivity].
    apply existsb_exists in E' as (x & Hin & Hx).
    assert (existsb p l' = true)
      by (apply existsb_exists; exists x; split;
          [now apply Permutation_in with (l := l) | exact Hx]).
    congruence.
Qed.

(** X15.  The member sort of the list classes, which is stable, leaves
    a container that is sorted already as it is, so sorting a list
    twice is sorting it once.  The range sort of a random-access class
    is fixed by the standard only up to the order of equivalent
    elements: it leaves a sorted container as it is, and sorting twice
    is sorting once, when no two distinct elements of the container
    are equivalent under [comp]; this is shown from the requirement of
    the standard on [std::sort] alone. *)
Theorem sort_leaves_a_sorted_container_unchanged
  (comp : A -> A -> bool) (Hcomp : strict_weak_order comp)
  (C : SequenceContainer A) (this : list A) :
  (is_random_access C = false ->
   member_sort C = Some (@std.list_sort A) ->
   (std.is_sorted comp this = true -> cec.sort C comp this = Some this)
   /\ exists sorted,
        cec.sort C comp this = Some sorted
        /\ std.is_sorted comp sorted = true
        /\ cec.sort C comp sorted = Some sorted)
  /\ (is_random_access C = true ->
      (forall x y, In x this -> In y this ->
                   comp x y = false -> comp y x = false -> x = y) ->
      (std.is_sorted comp this = true -> cec.sort C comp this = Some this)
      /\ exists sorted,
           cec.sort C comp this = Some sorted
           /\ std.is_sorted comp sorted = true
           /\ cec.sort C comp sorted = Some sorted).
Proof.
  unfold cec.sort, cec.sort_helper. split.
  - intros Hlist Hmember. rewrite Hlist, Hmember. split.
    + intros Hsorted. rewrite list_sort_on_ordered; [reflexivity |].
      now apply is_sorted_ordered.
    + destruct (list_sort_spec Hcomp this) as [_ Ho].
      exists (std.list_sort comp this).
      split; [reflexivity |]. split; [now apply ordered_is_sorted |].
      now rewrite list_sort_on_ordered.
  - intros Hrandom Hdistinct. rewrite Hrandom. split.
    + intros Hsorted. f_equal.
      apply (@conforming_sort_on_ordered A comp (std.sort comp) this
               (sort_spec Hcomp this));
        [exact Hdistinct | now apply is_sorted_ordered].
    + destruct (sort_spec Hcomp this) as [Hperm Ho].
      exists (std.sort comp this).
      split; [reflexivity |]. split; [now apply ordered_is_sorted |].
      f_equal.
      apply (@conforming_sort_on_ordered A comp (std.sort comp) (std.sort comp this)
               (sort_spec Hcomp (std.sort comp this))); [| exact Ho].
      intros x y Hx Hy. apply Hdistinct.
      * now apply Permutation_in with (l := std.sort comp this);
          [apply Permutation_sym |].
      * now apply Permutation_in with (l := std.sort comp this);
          [apply Permutation_sym |].
Qed.

(** X16.  Sorting keeps the elements: the sorted container has the
    size of the receiver, as many elements satisfying any predicate,
    and contains the values the receiver contained. *)
Theorem sort_keeps_the_elements
  (comp : A -> A -> bool) (Hcomp : strict_weak_order comp)
  (C : SequenceContainer A)
  (Hsort : is_random_access C = true
           \/ member_sort C = Some (@std.list_sort A))
  (p : A -> bool) (eqb : A -> A -> bool) (value : A) (this : list A) :
  exists sorted,
    cec.sort C comp this = Some sorted
    /\ length sorted = length this
    /\ cec.count_if p sorted = cec.count_if p this
    /\ cec.count eqb value sorted = cec.count eqb value this
    /\ cec.contains eqb value sorted = cec.contains eqb value this.
Proof.
  assert (H : exists sorted,
             cec.sort C comp this = Some sorted /\ Permutation this sorted).
  { unfold cec.sort, cec.sort_helper. destruct (is_random_access C).
    - exists (std.sort comp this). split; [reflexivity |].
      now destruct (sort_spec Hcomp this).
    - destruct Hsort as [Hr | Hm]; [discriminate |]. rewrite Hm.
      exists (std.list_sort comp this). split; [reflexivity |].
      now destruct (list_sort_spec Hcomp this). }
  destruct H as (sorted & Hs & Hperm). exists sorted.
  rewrite !count_if_spec, !count_spec, !contains_spec.
  split; [exact Hs |]. split; [symmetry; now apply Permutation_length |].
  split; [f_equal; symmetry; now apply permutation_length_filter |].
  split; [f_equal; symmetry; now apply permutation_length_filter |].
  symmetry. now apply permutation_existsb.
Qed.

End SortKeepsFacts.

(** The sorted numbers of the test of the library on [sort], in a
    list. *)
Lemma sort_leaves_a_sorted_container_unchanged_witness :
  cec.sort (std_list nat) Nat.ltb [1; 2; 2; 3; 15; 15] = Some [1; 2; 2; 3; 15; 15].
Proof.
  destruct (@sort_leaves_a_sorted_container_unchanged nat Nat.ltb
              ltb_strict_weak_order (std_list nat) [1; 2; 2; 3; 15; 15])
    as [Hlist _].
  destruct (Hlist eq_refl eq_refl) as [Hsorted _].
  exact (Hsorted eq_refl).
Defined.

(** The vector of numbers of the test of the library on [sort]. *)
Lemma sort_keeps_the_elements_witness :
  exists sorted,
    cec.sort (std_vector nat) Nat.ltb [3; 2; 1; 15; 2; 15] = Some sorted
    /\ length sorted = 6
    /\ cec.count_if Nat.even sorted = 2%Z
    /\ cec.count Nat.eqb 15 sorted = 2%Z
    /\ cec.contains Nat.eqb 15 sorted = true.
Proof.
  exact (@sort_keeps_the_elements nat Nat.ltb ltb_strict_weak_order
           (std_vector nat) (or_introl eq_refl)
           Nat.even Nat.eqb 15 [3; 2; 1; 15; 2; 15]).
Defined.

(** ** Index packs *)

Lemma index_pack_spec (Num : nat) : forall Nums,
  detail.index_pack Num Nums = seq 0 (S Num) ++ Nums.
Proof.
  induction Num as [| Num IH]; intros Nums; [reflexivity |].
  cbn [detail.index_pack]. rewrite IH, (seq_S (S Num)), <- app_assoc.
  reflexivity.
Qed.

(** X17.  [make_index_pack<N>()] for a positive [N] is the pack of the
    indices [0] to [N - 1] in increasing order: [N] indices, each below
    [N], each index below [N] once.  For the tuple of iterators of
    [zip_n], whose size is never zero, these are the positions of the
    tuple, each once and in order. *)
Theorem make_index_pack_counts_up (N : nat) (A : Type) (Ts : list Type) :
  detail.make_index_pack (S N) = Some (seq 0 (S N))
  /\ (exists Indexes,
        detail.make_index_pack (S N) = Some Indexes
        /\ length Indexes = S N
        /\ NoDup Indexes
        /\ (forall i, In i Indexes <-> i < S N)
        /\ forall i, i < S N -> nth_error Indexes i = Some i)
  /\ detail.make_index_pack (length (A :: Ts)) = Some (seq 0 (length (A :: Ts))).
Proof.
  assert (H : detail.make_index_pack (S N) = Some (seq 0 (S N))).
  { unfold detail.make_index_pack. now rewrite index_pack_spec, app_nil_r. }
  split; [exact H |]. split.
  - exists (seq 0 (S N)). split; [exact H |].
    split; [apply length_seq |]. split; [apply seq_NoDup |]. split.
    + intros i. rewrite in_seq. lia.
    + intros i Hi. rewrite nth_error_nth' with (d := 0) by (rewrite length_seq; lia).
      now rewrite seq_nth.
  - unfold detail.make_index_pack. cbn [length].
    now rewrite index_pack_spec, app_nil_r.
Qed.

(** ** Rebinding the standard containers, and rebinding that fails *)

Lemma rebind_with_allocator (tmpl : string) (T Rebind : type) :
  other program.classes (with_allocator tmpl T) = None ->
  allocator_type program.classes (with_allocator tmpl T)
  = Some (program.allocator T) ->
  detail.rebind_sequence_container program.classes (with_allocator tmpl T) Rebind
  = Some (with_allocator tmpl Rebind).
Proof.
  intros Hother Halloc.
  apply structural_rebind_element_and_allocator.
  - unfold detail.has_other. unfold with_allocator in Hother. now rewrite Hother.
  - exact Halloc.
  - reflexivity.
Qed.

(** X18.  Among the classes of the library, a standard container
    [Tmpl<A, std::allocator<A>>] (vector, list, deque, forward list) is
    rebound to [Tmpl<B, std::allocator<B>>] for every [A] and [B]: the
    element type and the allocator both change, rebinding to the
    element type the container has gives the same class, and rebinding
    to [B] and back to [A] gives the class one started from. *)
Theorem rebind_of_standard_containers (tmpl : string) (A B : type)
  (Hstd : In tmpl ["std::vector"%string; "std::list"%string;
                    "std::deque"%string; "std::forward_list"%string]) :
  detail.rebind_sequence_container program.classes (with_allocator tmpl A) B
  = Some (with_allocator tmpl B)
  /\ detail.rebind_sequence_container program.classes (with_allocator tmpl A) A
     = Some (with_allocator tmpl A)
  /\ match detail.rebind_sequence_container program.classes (with_allocator tmpl A) B with
     | Some rebound => detail.rebind_sequence_container program.classes rebound A
     | None => None
     end = Some (with_allocator tmpl A).
Proof.
  assert (H : forall T R,
             detail.rebind_sequence_container program.classes (with_allocator tmpl T) R
             = Some (with_allocator tmpl R)).
  { intros T R.
    simpl in Hstd.
    destruct Hstd as [<- | [<- | [<- | [<- | []]]]];
      apply rebind_with_allocator; reflexivity. }
  split; [apply H |]. split; [apply H |]. now rewrite !H.
Qed.

(** The test of the library on [map]: a deque of strings rebound to a
    deque of [int]. *)
Lemma rebind_of_standard_containers_witness :
  detail.rebind_sequence_container program.classes
    (Inst "std::deque" [Named "std::string"; program.allocator (Named "std::string")])
    program.int
  = Some (Inst "std::deque" [program.int; program.allocator program.int]).
Proof.
  apply (@rebind_of_standard_containers "std::deque" (Named "std::string") program.int).
  simpl. auto.
Defined.

(** X19.  Rebinding fails, as a program that does not compile, for a
    class that declares no [other] and is either no specialisation of a
    template, or one without parameters, or one that declares no
    [allocator_type]. *)
Theorem rebind_without_mapping_fails (D : declarations) (Container T : type)
  (Hother : other D Container = None)
  (Hshape : match Container with
            | Named _ => True
            | Inst _ Args => Args = [] \/ allocator_type D Container = None
            end) :
  detail.rebind_sequence_container D Container T = None.
Proof.
  unfold detail.rebind_sequence_container, detail.has_other.
  rewrite Hother. destruct Container as [name | tmpl Args]; [reflexivity |].
  unfold detail.rebind_prefer_other.
  destruct Hshape as [-> | ->]; [reflexivity |].
  now destruct Args.
Qed.

(** [int] is no container: it cannot be rebound. *)
Lemma rebind_without_mapping_fails_witness :
  detail.rebind_sequence_container program.classes program.int program.double = None.
Proof.
  apply rebind_without_mapping_fails; [reflexivity | exact I].
Defined.

(** ** Joining and splitting strings *)

Section JoinFacts.

Implicit Types (this s : list ascii) (strings : list (list ascii)).

Lemma join_loop_app this strings : forall joined,
  strings <> [] ->
  extendable_basic_string.join_loop this strings joined
  = joined ++ extendable_basic_string.join_loop this strings [].
Proof.
  induction strings as [| s strings IH]; intros joined Hne; [congruence |].
  destruct strings as [| s' strings]; [reflexivity |].
  change (extendable_basic_string.join_loop this (s :: s' :: strings) joined)
    with (extendable_basic_string.join_loop this (s' :: strings) (joined ++ s ++ this)).
  change (extendable_basic_string.join_loop this (s :: s' :: strings) [])
    with (extendable_basic_string.join_loop this (s' :: strings) ([] ++ s ++ this)).
  assert (Hne' : s' :: strings <> []) by discriminate.
  rewrite (IH (joined ++ s ++ this) Hne'), (IH ([] ++ s ++ this) Hne').
  cbn [app]. now rewrite <- !app_assoc.
Qed.

Lemma join_cons this s s' strings :
  extendable_basic_string.join this (s :: s' :: strings)
  = s ++ this ++ extendable_basic_string.join this (s' :: strings).
Proof.
  unfold extendable_basic_string.join.
  change (extendable_basic_string.join_loop this (s :: s' :: strings) [])
    with (extendable_basic_string.join_loop this (s' :: strings) ([] ++ s ++ this)).
  rewrite join_loop_app by discriminate.
  cbn [app]. now rewrite <- app_assoc.
Qed.

Lemma join_spec this s strings :
  extendable_basic_string.join this (s :: strings)
  = s ++ List.concat (List.map (fun s' => this ++ s') strings).
Proof.
  revert s. induction strings as [| s' strings IH]; intros s.
  - simpl. now rewrite app_nil_r.
  - rewrite join_cons, IH. simpl. now rewrite <- app_assoc.
Qed.

(** X20.  [join] puts the delimiter between the strings and nowhere
    else: no string gives the empty string, one string gives that
    string, and a string followed by others is followed by the
    delimiter and their join.  With an empty delimiter the strings are
    flattened, and the size of the result is the sizes of the strings
    and one delimiter fewer than there are strings. *)
Theorem join_puts_the_delimiter_between this s s' strings :
  extendable_basic_string.join this [] = []
  /\ extendable_basic_string.join this [s] = s
  /\ extendable_basic_string.join this (s :: s' :: strings)
     = s ++ this ++ extendable_basic_string.join this (s' :: strings)
  /\ extendable_basic_string.join [] strings = cec.flatten strings
  /\ length (extendable_basic_string.join this strings)
     = list_sum (List.map (@length ascii) strings)
       + (length strings - 1) * length this.
Proof.
  split; [reflexivity |]. split; [reflexivity |]. split; [apply join_cons |].
  split.
  - rewrite flatten_spec. destruct strings as [| s0 strings]; [reflexivity |].
    rewrite join_spec. simpl. f_equal. f_equal. apply map_id.
  - destruct strings as [| s0 strings]; [reflexivity |].
    assert (H : length (List.concat (List.map (fun s' => this ++ s') strings))
                = list_sum (List.map (@length ascii) strings)
                  + length strings * length this).
    { unfold list_sum.
      induction strings as [| s1 strings IH]; [reflexivity |].
      cbn [List.map List.concat fold_right length].
      rewrite !length_app, IH, Nat.mul_succ_l. lia. }
    rewrite join_spec, length_app, H. unfold list_sum.
    cbn [List.map fold_right length]. rewrite Nat.sub_succ, Nat.sub_0_r. lia.
Qed.

(** The tests of the library on [join]. *)
Example join_test :
  extendable_basic_string.join (list_ascii_of_string ", ")
    [list_ascii_of_string "hello"; list_ascii_of_string "world"]
  = list_ascii_of_string "hello, world"
  /\ extendable_basic_string.join (list_ascii_of_string ", ")
       [list_ascii_of_string "word"]
     = list_ascii_of_string "word".
Proof. split; reflexivity. Qed.

End JoinFacts.

Section WordFacts.

Implicit Types (w s rest before : list ascii).

Lemma non_space_run_le rest : regex.non_space_run rest <= length rest.
Proof.
  induction rest as [| c rest IH]; simpl; [lia |].
  destruct (regex.isspace c); simpl; lia.
Qed.

Lemma match_here_S_plus (not_null : bool) before rest :
  regex.match_here regex.S_plus not_null before rest
  = if regex.non_space_run rest =? 0 then None
    else Some (regex.non_space_run rest).
Proof.
  unfold regex.match_here, regex.S_plus.
  pose proof (non_space_run_le rest) as Hle.
  destruct (regex.non_space_run rest) as [| n]; [reflexivity |].
  rewrite seq_S, rev_app_distr. cbn [rev app List.filter Nat.add].
  assert (H : (S n <=? length rest) = true) by now apply Nat.leb_le.
  rewrite H. cbn [find Nat.eqb]. now rewrite andb_false_r.
Qed.

Lemma firstn_non_space_run rest :
  forallb (fun c => negb (regex.isspace c))
    (firstn (regex.non_space_run rest) rest) = true
  /\ length (firstn (regex.non_space_run rest) rest) = regex.non_space_run rest.
Proof.
  induction rest as [| c rest [IH1 IH2]]; simpl; [auto |].
  destruct (regex.isspace c) eqn:Hc; simpl; [auto |].
  now rewrite Hc, IH1, IH2.
Qed.

Lemma is_word_run rest :
  regex.non_space_run rest <> 0 ->
  is_word (firstn (regex.non_space_run rest) rest) = true.
Proof.
  intros Hrun. destruct (firstn_non_space_run rest) as [Hall Hlen].
  unfold is_word.
  destruct (firstn (regex.non_space_run rest) rest); [simpl in Hlen; lia | exact Hall].
Qed.

(** What a search with the default expression finds is a run of
    characters that are not white space. *)
Lemma search_S_plus_finds_a_word rest : forall not_null continuous before skipped len,
  regex.regex_search regex.S_plus not_null continuous before rest
  = Some (skipped, len) ->
  is_word (regex.str rest skipped len) = true.
Proof.
  induction rest as [| c rest IH]; intros not_null continuous before skipped len;
    cbn [regex.regex_search]; rewrite match_here_S_plus.
  - simpl. now destruct continuous.
  - destruct (regex.non_space_run (c :: rest) =? 0) eqn:Hrun.
    + destruct continuous; [discriminate |].
      destruct (regex.regex_search regex.S_plus not_null false (c :: before) rest)
        as [[skipped' len'] |] eqn:Hsearch; [| discriminate].
      intros [= <- <-]. apply IH in Hsearch. exact Hsearch.
    + intros [= <- <-]. apply Nat.eqb_neq in Hrun.
      unfold regex.str. cbn [skipn]. exact (@is_word_run (c :: rest) Hrun).
Qed.

Lemma matches_after_S_plus_are_words (fuel : nat) :
  forall (prev_empty : bool) before rest,
    forallb is_word (regex.matches_after fuel regex.S_plus prev_empty before rest)
    = true.
Proof.
  induction fuel as [| fuel IH]; intros prev_empty before rest; [reflexivity |].
  cbn [regex.matches_after].
  assert (Hcontinue : forall before rest,
             forallb is_word
               match regex.regex_search regex.S_plus false false before rest with
               | Some (skipped, len) =>
                   let '(before', rest') := regex.after_match before rest skipped len in
                   regex.str rest skipped len
                   :: regex.matches_after fuel regex.S_plus (len =? 0) before' rest'
               | None => []
               end = true).
  { intros before0 rest0.
    destruct (regex.regex_search regex.S_plus false false before0 rest0)
      as [[skipped len] |] eqn:Hsearch; [| reflexivity].
    unfold regex.after_match. cbn [forallb].
    now rewrite (search_S_plus_finds_a_word _ _ _ _ Hsearch), IH. }
  destruct prev_empty; [| apply Hcontinue].
  destruct rest as [| c rest]; [reflexivity |].
  destruct (regex.regex_search regex.S_plus true true before (c :: rest))
    as [[skipped len] |] eqn:Hsearch; [| apply Hcontinue].
  unfold regex.after_match. cbn [forallb].
  now rewrite (search_S_plus_finds_a_word _ _ _ _ Hsearch), IH.
Qed.

Lemma non_space_run_of_spaces s rest :
  is_white_space s = true -> regex.non_space_run (s ++ rest) = 0.
Proof.
  destruct s as [| c s]; [discriminate |]. simpl.
  intros H. apply andb_true_iff in H as [Hc _]. now rewrite Hc.
Qed.

Lemma non_space_run_word w rest :
  forallb (fun c => negb (regex.isspace c)) w = true ->
  regex.non_space_run (w ++ rest) = length w + regex.non_space_run rest.
Proof.
  induction w as [| c w IH]; simpl; [reflexivity |].
  intros H. apply andb_true_iff in H as [Hc Hw].
  apply negb_true_iff in Hc. now rewrite Hc, IH.
Qed.

Lemma is_word_inv w :
  is_word w = true ->
  w <> [] /\ forallb (fun c => negb (regex.isspace c)) w = true.
Proof.
  destruct w; [discriminate |]. intros H. split; [discriminate | exact H].
Qed.

(** The search steps over white space and finds the word behind it. *)
Lemma search_S_plus_over_spaces s : forall before w rest,
  forallb regex.isspace s = true ->
  is_word w = true -> regex.non_space_run rest = 0 ->
  regex.regex_search regex.S_plus false false before (s ++ w ++ rest)
  = Some (length s, length w).
Proof.
  induction s as [| c s IH]; intros before w rest Hs Hw Hrest.
  - apply is_word_inv in Hw as [Hne Hw].
    assert (Hrun : regex.non_space_run (w ++ rest) = length w)
      by (rewrite non_space_run_word, Hrest by exact Hw; lia).
    destruct w as [| c w]; [congruence |].
    simpl app. cbn [regex.regex_search].
    rewrite match_here_S_plus. simpl app in Hrun. rewrite Hrun. reflexivity.
  - simpl in Hs. apply andb_true_iff in Hs as [Hc Hs].
    simpl app. cbn [regex.regex_search]. rewrite match_here_S_plus.
    cbn [regex.non_space_run]. rewrite Hc. cbn [Nat.eqb].
    now rewrite IH.
Qed.

Lemma skipn_length_app (a l : list ascii) : skipn (length a) (a ++ l) = l.
Proof.
  induction a as [| x a IH]; simpl; auto.
Qed.

Lemma matches_after_joined_words (sep : list ascii) (Hsep : is_white_space sep = true)
  (words : list (list ascii)) : forall fuel before,
  length words < fuel ->
  forallb is_word words = true ->
  regex.matches_after fuel regex.S_plus false before
    (List.concat (List.map (fun w => sep ++ w) words))
  = words.
Proof.
  assert (Hspaces : forallb regex.isspace sep = true)
    by (destruct sep; [discriminate | exact Hsep]).
  induction words as [| w words IH]; intros fuel before Hfuel Hwords;
    (destruct fuel as [| fuel]; [simpl in Hfuel; lia |]).
  - reflexivity.
  - simpl in Hwords. apply andb_true_iff in Hwords as [Hw Hwords].
    cbn [List.map List.concat regex.matches_after].
    set (rest := List.concat (List.map (fun w => sep ++ w) words)).
    assert (Hrest : regex.non_space_run rest = 0).
    { subst rest. destruct words as [| w' words]; [reflexivity |].
      cbn [List.map List.concat]. rewrite <- app_assoc.
      now apply non_space_run_of_spaces. }
    rewrite <- app_assoc.
    rewrite search_S_plus_over_spaces by assumption.
    unfold regex.after_match, regex.str.
    rewrite (app_assoc sep w rest), <- length_app, skipn_length_app.
    rewrite <- app_assoc, skipn_length_app, firstn_length_app.
    apply is_word_inv in Hw as [Hne _].
    destruct w as [| c w]; [congruence |]. cbn [length Nat.eqb].
    f_equal. apply IH; [simpl in Hfuel; lia | exact Hwords].
Qed.

Lemma length_joined_words (sep : list ascii) (words : list (list ascii)) :
  forallb is_word words = true ->
  length words <= length (List.concat (List.map (fun w => sep ++ w) words)).
Proof.
  induction words as [| w words IH]; simpl; [lia |].
  intros H. apply andb_true_iff in H as [Hw Hwords].
  rewrite !length_app. specialize (IH Hwords).
  destruct w; [discriminate | simpl; lia].
Qed.

(** X21.  Splitting undoes joining: words, each of one or more
    characters that are not white space, joined by a delimiter of one
    or more white-space characters, are the strings [split()] returns
    on the joined string, in their order. *)
Theorem split_of_join_of_words (sep : list ascii) (words : list (list ascii))
  (Hsep : is_white_space sep = true) (Hwords : forallb is_word words = true) :
  extendable_basic_string.split_default (extendable_basic_string.join sep words)
  = words.
Proof.
  unfold extendable_basic_string.split_default.
  rewrite split_is_all_matches.
  destruct words as [| w words]; [reflexivity |].
  rewrite join_spec. simpl in Hwords.
  apply andb_true_iff in Hwords as [Hw Hwords].
  set (rest := List.concat (List.map (fun s' => sep ++ s') words)).
  assert (Hrest : regex.non_space_run rest = 0).
  { subst rest. destruct words as [| w' words]; [reflexivity |].
    cbn [List.map List.concat]. rewrite <- app_assoc.
    now apply non_space_run_of_spaces. }
  unfold regex.all_matches.
  pose proof (search_S_plus_over_spaces [] [] w rest eq_refl Hw Hrest) as Hfirst.
  cbn [app length] in Hfirst. rewrite Hfirst.
  unfold regex.after_match, regex.str. cbn [length Nat.add skipn].
  rewrite skipn_length_app, firstn_length_app.
  pose proof (length_joined_words sep words Hwords) as Hlen. fold rest in Hlen.
  apply is_word_inv in Hw as [Hne _].
  destruct w as [| c w]; [congruence |]. cbn [length Nat.eqb].
  f_equal. apply matches_after_joined_words; [exact Hsep | | exact Hwords].
  rewrite length_app. simpl. lia.
Qed.

(** X22.  Whatever the string, [split()] returns words only: no string
    it returns is empty or holds white space.  On the empty string and
    on a string of white space it returns no string at all. *)
Theorem split_returns_words_only s :
  forallb is_word (extendable_basic_string.split_default s) = true
  /\ extendable_basic_string.split_default [] = []
  /\ (forallb regex.isspace s = true -> extendable_basic_string.split_default s = []).
Proof.
  unfold extendable_basic_string.split_default. rewrite !split_is_all_matches.
  split; [| split; [reflexivity |]].
  - unfold regex.all_matches.
    destruct (regex.regex_search regex.S_plus false false [] s)
      as [[skipped len] |] eqn:Hsearch; [| reflexivity].
    unfold regex.after_match. cbn [forallb].
    now rewrite (search_S_plus_finds_a_word _ _ _ _ Hsearch),
      matches_after_S_plus_are_words.
  - intros Hs. unfold regex.all_matches.
    assert (H : forall before,
               regex.regex_search regex.S_plus false false before s = None).
    { induction s as [| c s IH]; intros before; [reflexivity |].
      simpl in Hs. apply andb_true_iff in Hs as [Hc Hs].
      cbn [regex.regex_search]. rewrite match_here_S_plus.
      cbn [regex.non_space_run]. rewrite Hc. cbn [Nat.eqb].
      now rewrite IH. }
    now rewrite H.
Qed.

End WordFacts.

(** The words of the test of the library on [split], joined by a
    space. *)
Lemma split_of_join_of_words_witness :
  extendable_basic_string.split_default
    (extendable_basic_string.join (list_ascii_of_string " ")
       [list_ascii_of_string "hello"; list_ascii_of_string "world"])
  = [list_ascii_of_string "hello"; list_ascii_of_string "world"].
Proof.
  apply split_of_join_of_words; reflexivity.
Defined.

(** ** Converting the case *)

Lemma case_of_a_character (c : ascii) :
  std.isascii c = true ->
  exists lower upper,
    std.tolower c = Returns lower /\ std.toupper c = Returns upper
    /\ std.isascii lower = true /\ std.isascii upper = true
    /\ std.tolower lower = Returns lower /\ std.toupper upper = Returns upper
    /\ std.toupper lower = Returns upper /\ std.tolower upper = Returns lower
    /\ isupper lower = false /\ islower upper = false
    /\ (isupper c = false -> lower = c) /\ (islower c = false -> upper = c).
Proof.
  destruct c as [b0 b1 b2 b3 b4 b5 b6 b7].
  destruct b0, b1, b2, b3, b4, b5, b6, b7;
    intros Hascii; try (vm_compute in Hascii; discriminate Hascii);
    (eexists; eexists;
     split; [vm_compute; reflexivity |];
     split; [vm_compute; reflexivity |];
     vm_compute; repeat split; congruence).
Qed.

(** X23.  On a string of ASCII characters [to_lower] and [to_upper]
    return strings of the same size that hold no capital and no small
    letter, converting again changes nothing, and each conversion
    forgets what the other did: the upper case of the lower case is the
    upper case, and the other way round.  A string without capital
    letters is its own lower case. *)
Theorem case_conversion_of_ascii (this : list ascii)
  (Hascii : forallb std.isascii this = true) :
  exists lower upper,
    extendable_basic_string.to_lower this = Returns lower
    /\ extendable_basic_string.to_upper this = Returns upper
    /\ length lower = length this /\ length upper = length this
    /\ existsb isupper lower = false /\ existsb islower upper = false
    /\ extendable_basic_string.to_lower lower = Returns lower
    /\ extendable_basic_string.to_upper upper = Returns upper
    /\ extendable_basic_string.to_upper lower = Returns upper
    /\ extendable_basic_string.to_lower upper = Returns lower
    /\ (existsb isupper this = false -> lower = this)
    /\ (existsb islower this = false -> upper = this).
Proof.
  unfold extendable_basic_string.to_lower, extendable_basic_string.to_upper.
  induction this as [| c this IH].
  - exists [], []. repeat split; reflexivity.
  - simpl in Hascii. apply andb_true_iff in Hascii as [Hc Hthis].
    destruct (IH Hthis)
      as (lower & upper & Hl & Hu & Hll & Hlu & Hnl & Hnu & Hil & Hiu & Hul & Hlu' & Hsl & Hsu).
    destruct (case_of_a_character c Hc)
      as (l & u & Hcl & Hcu & _ & _ & Hcll & Hcuu & Hcul & Hclu & Hcnl & Hcnu & Hcsl & Hcsu).
    exists (l :: lower), (u :: upper).
    cbn [extendable_basic_string.convert length existsb].
    rewrite Hcl, Hcu, Hl, Hu, Hcll, Hcuu, Hcul, Hclu, Hil, Hiu, Hul, Hlu',
      Hcnl, Hcnu, Hnl, Hnu, Hll, Hlu.
    cbn [bind orb].
    repeat split.
    + intros H. apply orb_false_iff in H as [H1 H2].
      now rewrite (Hcsl H1), (Hsl H2).
    + intros H. apply orb_false_iff in H as [H1 H2].
      now rewrite (Hcsu H1), (Hsu H2).
Qed.

(** The message of the tests of the library on [to_lower] and
    [to_upper]. *)
Lemma case_conversion_of_ascii_witness :
  extendable_basic_string.to_lower (list_ascii_of_string "A mixed Case MeSSaGe.")
  = Returns (list_ascii_of_string "a mixed case message.")
  /\ extendable_basic_string.to_upper (list_ascii_of_string "A mixed Case MeSSaGe.")
     = Returns (list_ascii_of_string "A MIXED CASE MESSAGE.")
  /\ exists lower upper,
       extendable_basic_string.to_lower (list_ascii_of_string "A mixed Case MeSSaGe.")
       = Returns lower
       /\ extendable_basic_string.to_upper (list_ascii_of_string "A mixed Case MeSSaGe.")
          = Returns upper
       /\ extendable_basic_string.to_upper lower = Returns upper.
Proof.
  split; [reflexivity |]. split; [reflexivity |].
  destruct (@case_conversion_of_ascii (list_ascii_of_string "A mixed Case MeSSaGe.") eq_refl)
    as (lower & upper & Hl & Hu & _ & _ & _ & _ & _ & _ & Hul & _).
  exists lower, upper. auto.
Defined.
